(** * Guarded execution pipeline of [generate_diagram.py]

    A shallow embedding of the security-relevant core of
    [skills/azure-diagrams/scripts/generate_diagram.py]: the policy tables,
    the AST validator ([CodeValidator], [validate_code]), the two input
    sanitizers ([sanitize_name], [sanitize_output]), the output-path
    confinement check ([validate_output_path]) and the sandboxed executor
    ([execute_diagram_code]).

    Python values are modelled as follows.
    - A [str] is the list of its Unicode code points ([list N]); slicing,
      [len] and the regular-expression engine all work on code points.
    - A [set] of strings is a [gset str]; only membership and iteration in
      an unspecified order are used by the program.
    - Exceptions are explicit: a computation that can raise returns a
      [result], and the executor runs in a state-and-exception monad over a
      [world] that records the temporary directory and every process event. *)

From Stdlib Require Import NArith ZArith String Ascii List DecimalString.
From stdpp Require Import base option list sets gmap strings.

Local Open Scope N_scope.

#[local] Set Warnings "-register-all".

(** ** Python strings *)

Abbreviation str := (list N).

(** A source literal, as the list of its code points. *)
Definition pystr (s : string) : str :=
  N_of_ascii <$> list_ascii_of_string s.

Definition DOT : N := 46.
Definition SLASH : N := 47.
Definition NUL : N := 0.
Definition NEWLINE : N := 10.

(** [s.startswith(p)] *)
Fixpoint startswith (s p : str) {struct p} : bool :=
  match p, s with
  | [], _ => true
  | _ :: _, [] => false
  | a :: p', b :: s' => (a =? b) && startswith s' p'
  end.

(** [s.split(sep)] for a one-character separator: the segments between
    successive occurrences of [sep]; never the empty list. *)
Fixpoint split (sep : N) (s : str) : list str :=
  match s with
  | [] => [[]]
  | c :: s' =>
      if c =? sep then [] :: split sep s'
      else match split sep s' with
           | seg :: segs => (c :: seg) :: segs
           | [] => [[c]]
           end
  end.

(** [sep.join(items)] *)
Fixpoint join (sep : str) (items : list str) : str :=
  match items with
  | [] => []
  | [x] => x
  | x :: rest => x ++ sep ++ join sep rest
  end.

(** [s.replace(old, new)]: left to right, non-overlapping.  [skip] counts
    the characters of a match that are still to be consumed.  ([old] is
    never empty in this program.) *)
Fixpoint replace_from (old new : str) (skip : nat) (s : str) : str :=
  match s with
  | [] => []
  | c :: s' =>
      match skip with
      | S k => replace_from old new k s'
      | O =>
          if startswith s old
          then new ++ replace_from old new (pred (length old)) s'
          else c :: replace_from old new 0 s'
      end
  end.

Definition replace (old new s : str) : str := replace_from old new 0 s.

(** [re.sub(cls, repl, s)] where the pattern [cls] is a single character
    class: every character matching the class is a match of length one. *)
Definition re_sub_class (cls : N -> bool) (repl : str) (s : str) : str :=
  mjoin ((fun c => if cls c then repl else [c]) <$> s).

(** [s[:n]] *)
Definition slice_to (n : nat) (s : str) : str := take n s.

(** [str(z)] for an integer. *)
Definition str_of_Z (z : Z) : str :=
  pystr (NilEmpty.string_of_int (Z.to_int z)).

(** ** Security configuration *)

Record PolicyTables := {
  ALLOWED_IMPORTS : gset str;
  BLOCKED_BUILTINS : gset str;
  BLOCKED_ATTRIBUTES : gset str;
  BLOCKED_IMPORTS : gset str;
  ALLOWED_OUTPUT_DIRS : gset str
}.

Definition pyset (l : list string) : gset str := list_to_set (pystr <$> l).

(** The tables of the script, entry for entry. *)
Definition SECURITY_CONFIGURATION : PolicyTables := {|
  ALLOWED_IMPORTS := pyset [
    "diagrams";
    "diagrams.azure";
    "diagrams.azure.aimachinelearning";
    "diagrams.azure.analytics";
    "diagrams.azure.azurestack";
    "diagrams.azure.blockchain";
    "diagrams.azure.compute";
    "diagrams.azure.containers";
    "diagrams.azure.database";
    "diagrams.azure.databases";
    "diagrams.azure.devops";
    "diagrams.azure.general";
    "diagrams.azure.identity";
    "diagrams.azure.integration";
    "diagrams.azure.intune";
    "diagrams.azure.iot";
    "diagrams.azure.managementgovernance";
    "diagrams.azure.migration";
    "diagrams.azure.mixedreality";
    "diagrams.azure.ml";
    "diagrams.azure.monitor";
    "diagrams.azure.network";
    "diagrams.azure.networking";
    "diagrams.azure.security";
    "diagrams.azure.storage";
    "diagrams.azure.web";
    "diagrams.onprem";
    "diagrams.onprem.client";
    "diagrams.onprem.compute";
    "diagrams.onprem.database";
    "diagrams.onprem.network";
    "diagrams.generic";
    "diagrams.generic.blank";
    "diagrams.generic.compute";
    "diagrams.generic.database";
    "diagrams.generic.storage";
    "diagrams.programming";
    "diagrams.programming.flowchart";
    "diagrams.saas";
    "diagrams.saas.chat";
    "diagrams.saas.erp";
    "diagrams.saas.cdn";
    "diagrams.custom";
    "graphviz";
    "matplotlib";
    "matplotlib.pyplot";
    "matplotlib.patches";
    "matplotlib.dates";
    "numpy";
    "svgwrite";
    "cairosvg";
    "datetime";
    "collections";
    "pathlib"
  ]%string;
  BLOCKED_BUILTINS := pyset [
    "exec"; "eval"; "compile"; "open"; "__import__";
    "globals"; "locals"; "vars"; "dir";
    "getattr"; "setattr"; "delattr"; "hasattr";
    "breakpoint"; "input"; "help"
  ]%string;
  BLOCKED_ATTRIBUTES := pyset [
    "__class__"; "__bases__"; "__subclasses__"; "__globals__";
    "__code__"; "__builtins__"; "__import__"; "__loader__";
    "__spec__"; "__dict__"; "__mro__"; "__init_subclass__"
  ]%string;
  BLOCKED_IMPORTS := pyset [
    "os"; "sys"; "subprocess"; "socket"; "urllib"; "requests";
    "http"; "pickle"; "shelve"; "ctypes"; "importlib";
    "shutil"; "glob"; "fnmatch"; "io"; "builtins";
    "code"; "codeop"; "marshal"; "types"
  ]%string;
  ALLOWED_OUTPUT_DIRS := pyset [
    "."; "/mnt/user-data/outputs"; "/tmp"; "~/outputs"
  ]%string
|}.

Definition EXECUTION_TIMEOUT : Z := 60.

(** ** Import policy check *)

(** [CodeValidator._is_allowed_import] *)
Definition _is_allowed_import (P : PolicyTables) (module_name : str) : bool :=
  let base_module := default [] (split DOT module_name !! 0%nat) in
  if bool_decide (base_module ∈ BLOCKED_IMPORTS P) then false
  else if bool_decide (module_name ∈ ALLOWED_IMPORTS P) then true
  else existsb (fun allowed => startswith module_name (allowed ++ [DOT]))
               (elements (ALLOWED_IMPORTS P)).

(** ** Exceptions

    The exception classes the program distinguishes in its handlers.  All
    of them are subclasses of [Exception]; [exn_str] is [str(e)]. *)

Inductive exn :=
| ValueError (text : str)
| RuntimeError (text : str)
| OSError (text : str)
| TimeoutExpired (text : str).

Definition exn_str (e : exn) : str :=
  match e with
  | ValueError t | RuntimeError t | OSError t | TimeoutExpired t => t
  end.

Inductive result (A : Type) :=
| Returned (a : A)
| Raised (e : exn).
Arguments Returned {A} a.
Arguments Raised {A} e.

Definition result_bind {A B} (r : result A) (k : A -> result B) : result B :=
  match r with
  | Returned a => k a
  | Raised e => Raised e
  end.

Notation "x ←! r ; k" := (result_bind r (fun x => k))
  (at level 100, r at next level, right associativity).

(** ** Syntax trees

    The part of Python's [ast] node hierarchy that [CodeValidator]
    distinguishes.  Every node class without a [visit_*] method of its own
    is an [Other] node carrying its child nodes in field order (a [Module]
    is [Other body], a [keyword] is [Other [value]], a context marker is
    [Other []]). *)

Record alias := { alias_name : str; alias_asname : option str }.

Inductive node :=
| Import (names : list alias)
| ImportFrom (module : option str) (names : list alias) (level : N)
| Call (func : node) (args : list node) (keywords : list node)
| Attribute (value : node) (attr : str)
| Name (id : str)
| Other (children : list node).

(** Outcome of [ast.parse]: a tree, a [SyntaxError] with its text, or
    another exception (a [ValueError] for source with a NUL character on
    older interpreters, a [UnicodeEncodeError], which is a [ValueError],
    for source with a lone surrogate). *)
Inductive parse_result :=
| Parsed (tree : node)
| SyntaxError (e : str)
| ParseRaises (e : exn).

(** ** CodeValidator *)

Definition blocked_import_msg (module_name : str) : str :=
  pystr "Blocked import: '" ++ module_name ++ pystr "'".

Definition blocked_builtin_msg (name : str) : str :=
  pystr "Blocked builtin call: '" ++ name ++ pystr "()'".

Definition blocked_attribute_msg (attr : str) : str :=
  pystr "Blocked attribute access: '" ++ attr ++ pystr "'".

Definition syntax_error_msg (e : str) : str :=
  pystr "Syntax error: " ++ e.

(** The loop of [visit_Import] over [node.names]. *)
Definition check_aliases (P : PolicyTables) (names : list alias)
    (errors : list str) : list str :=
  foldl (fun errors a =>
           if negb (_is_allowed_import P (alias_name a))
           then errors ++ [blocked_import_msg (alias_name a)]
           else errors)
        errors names.

(** The test of [visit_ImportFrom]; [if node.module] is false for [None]
    and for the empty string. *)
Definition check_module (P : PolicyTables) (module : option str)
    (errors : list str) : list str :=
  match module with
  | Some (c :: m) =>
      if negb (_is_allowed_import P (c :: m))
      then errors ++ [blocked_import_msg (c :: m)]
      else errors
  | Some [] | None => errors
  end.

(** The test of [visit_Call] on [node.func]. *)
Definition check_call (P : PolicyTables) (func : node)
    (errors : list str) : list str :=
  match func with
  | Name id =>
      if bool_decide (id ∈ BLOCKED_BUILTINS P)
      then errors ++ [blocked_builtin_msg id] else errors
  | Attribute _ attr =>
      if bool_decide (attr ∈ BLOCKED_BUILTINS P)
      then errors ++ [blocked_builtin_msg attr] else errors
  | _ => errors
  end.

(** The test of [visit_Attribute]. *)
Definition check_attribute (P : PolicyTables) (attr : str)
    (errors : list str) : list str :=
  if bool_decide (attr ∈ BLOCKED_ATTRIBUTES P)
  then errors ++ [blocked_attribute_msg attr] else errors.

(** [NodeVisitor.visit]: dispatch on the node class, each [visit_*] method
    ending in [generic_visit], which visits the child nodes in field
    order.  [errors] is [self.errors], threaded through the traversal.
    The [alias] children of an import have no child nodes and no visitor
    method, so visiting them changes nothing. *)
Fixpoint visit (P : PolicyTables) (n : node) (errors : list str)
    {struct n} : list str :=
  let generic_visit :=
    fix generic_visit (children : list node) (errors : list str)
        {struct children} : list str :=
      match children with
      | [] => errors
      | c :: cs => generic_visit cs (visit P c errors)
      end in
  match n with
  | Import names => check_aliases P names errors
  | ImportFrom module names _ => check_module P module errors
  | Call func args keywords =>
      let errors := check_call P func errors in
      generic_visit keywords (generic_visit args (visit P func errors))
  | Attribute value attr =>
      let errors := check_attribute P attr errors in
      visit P value errors
  | Name id => errors
  | Other children => generic_visit children errors
  end.

Definition generic_visit (P : PolicyTables) (children : list node)
    (errors : list str) : list str :=
  foldl (fun errors c => visit P c errors) errors children.

(** [CodeValidator.validate].  [parse] stands for [ast.parse]; only its
    [SyntaxError] is caught, any other exception leaves the method. *)
Definition validate (parse : str -> parse_result) (P : PolicyTables)
    (code : str) : result (list str) :=
  let errors := [] in
  match parse code with
  | Parsed tree => Returned (visit P tree errors)
  | SyntaxError e => Returned (errors ++ [syntax_error_msg e])
  | ParseRaises e => Raised e
  end.

(** [validate_code]: [(is_valid, errors)]. *)
Definition validate_code (parse : str -> parse_result) (P : PolicyTables)
    (code : str) : result (bool * list str) :=
  errors ←! validate parse P code;
  Returned (Nat.eqb (length errors) 0, errors).

(** ** Input sanitizers *)

Definition in_range (lo hi c : N) : bool := (lo <=? c) && (c <=? hi).

(** The characters matched by [\s] in a [str] pattern: those for which
    [str.isspace] holds. *)
Definition is_space (c : N) : bool :=
  in_range 9 13 c || in_range 28 32 c || (c =? 133) || (c =? 160)
  || (c =? 5760) || in_range 8192 8202 c || (c =? 8232) || (c =? 8233)
  || (c =? 8239) || (c =? 8287) || (c =? 12288).

Definition QUOTE : N := 34.

Definition one_of (chars : str) (c : N) : bool :=
  bool_decide (c ∈ chars).

(** The marks kept by [sanitize_name] besides letters, digits and
    whitespace, in the order of its pattern. *)
Definition NAME_MARKS : str := pystr "-_.,!?()'" ++ [QUOTE].

(** The characters removed by [sanitize_output], in the order of its
    pattern: slash, backslash, colon, asterisk, question mark, double
    quote, angle brackets and vertical bar. *)
Definition PATH_CHARS : str := pystr "/\:*?" ++ [QUOTE] ++ pystr "<>|".

(** The characters kept by [sanitize_name]: the complement of its negated
    class. *)
Definition name_char (c : N) : bool :=
  in_range 97 122 c || in_range 65 90 c || in_range 48 57 c
  || is_space c || one_of NAME_MARKS c.

Definition path_char (c : N) : bool := one_of PATH_CHARS c.

Definition DOTDOT : str := [DOT; DOT].

(** [sanitize_name] *)
Definition sanitize_name (name : str) : str :=
  let sanitized := re_sub_class (fun c => negb (name_char c)) [] name in
  slice_to 200 sanitized.

(** [sanitize_output] *)
Definition sanitize_output (output : str) : str :=
  let sanitized := re_sub_class path_char [] output in
  let sanitized := replace DOTDOT [] sanitized in
  slice_to 100 sanitized.

(** ** Output path confinement *)

(** A resolved absolute path: its parts below the root. *)
Abbreviation path := (list str).

(** What [pathlib] provides to the script on a given machine. *)
Record Platform := {
  expanduser : str -> str;        (* [Path(s).expanduser()], as text *)
  resolve : str -> result path;   (* [Path(s).resolve()] *)
  cwd : path                      (* [Path.cwd()] *)
}.

(** [self.relative_to(other)] on absolute paths: the remaining parts, or
    [ValueError] when [other] is not a leading part of [self]. *)
Definition relative_to (self other : path) : result path :=
  if bool_decide (other `prefix_of` self)
  then Returned (drop (length other) self)
  else Raised (ValueError (pystr "path is not in the subpath of the other")).

(** The loop of [validate_output_path] over the allowed directories.
    [Returned true] is the early [return True, None]; [Returned false]
    means the loop ran to its end. *)
Fixpoint check_allowed_dirs (pf : Platform) (p : path) (dirs : list str)
    : result bool :=
  match dirs with
  | [] => Returned false
  | allowed :: rest =>
      allowed_path ←! resolve pf (expanduser pf allowed);
      match relative_to p allowed_path with
      | Returned _ => Returned true
      | Raised (ValueError _) => check_allowed_dirs pf p rest
      | Raised e => Raised e
      end
  end.

Definition not_allowed_msg (dirs : list str) : str :=
  pystr "Output path not allowed. Allowed directories: "
  ++ join (pystr ", ") dirs.

(** [validate_output_path]: [(is_valid, error_message)].  A set is
    iterated in an order Python leaves unspecified; [elements] fixes one. *)
Definition validate_output_path (pf : Platform) (P : PolicyTables)
    (output_path : str) : result (bool * option str) :=
  p ←! resolve pf output_path;
  found ←! check_allowed_dirs pf p (elements (ALLOWED_OUTPUT_DIRS P));
  if found : bool then Returned (true, None)
  else
    match relative_to p (cwd pf) with
    | Returned _ => Returned (true, None)
    | Raised (ValueError _) =>
        Returned (false,
                  Some (not_allowed_msg (elements (ALLOWED_OUTPUT_DIRS P))))
    | Raised e => Raised e
    end.

(** *** A POSIX file system

    An instance of [Platform]: a working directory, a home directory and
    a table of symbolic links (location of the link, text of the link).
    Resolution follows [os.path.realpath]: the parts are walked left to
    right, a parent marker drops the last resolved part, and a part that
    is a symbolic link is replaced by the resolution of its text. *)

Record filesystem := {
  fs_cwd : path;
  fs_home : str;
  fs_links : gmap path str
}.

Definition isabs (s : str) : bool := startswith s [SLASH].

Definition parts_of (s : str) : list str := split SLASH s.

Definition symlink_loop : exn := RuntimeError (pystr "Symlink loop").

(** [fuel] bounds the nesting of link resolutions; a nesting deeper than
    the number of links in the table revisits a link that is still being
    resolved, which is a loop. *)
Fixpoint joinrealpath (links : gmap path str) (fuel : nat)
    (cur : path) (rest : list str) {struct fuel} : result path :=
  (fix walk (cur : path) (rest : list str) {struct rest} : result path :=
     match rest with
     | [] => Returned cur
     | name :: rest' =>
         if bool_decide (name = [] ∨ name = [DOT]) then walk cur rest'
         else if bool_decide (name = DOTDOT) then walk (removelast cur) rest'
         else
           let newpath := cur ++ [name] in
           match links !! newpath with
           | None => walk newpath rest'
           | Some target =>
               match fuel with
               | O => Raised symlink_loop
               | S fuel' =>
                   match joinrealpath links fuel'
                           (if isabs target then [] else cur)
                           (parts_of target) with
                   | Returned p => walk p rest'
                   | Raised e => Raised e
                   end
               end
           end
     end) cur rest.

Definition posix_resolve (fs : filesystem) (s : str) : result path :=
  if bool_decide (NUL ∈ s)
  then Raised (ValueError (pystr "embedded null byte"))
  else joinrealpath (fs_links fs) (size (fs_links fs)) []
         (if isabs s then parts_of s else fs_cwd fs ++ parts_of s).

(** [~] alone as first part is replaced by the home directory (the homes
    of other users are not modelled). *)
Definition posix_expanduser (fs : filesystem) (s : str) : str :=
  match parts_of s with
  | first :: rest =>
      if bool_decide (first = pystr "~")
      then join [SLASH] (fs_home fs :: rest) else s
  | [] => s
  end.

Definition posix (fs : filesystem) : Platform := {|
  expanduser := posix_expanduser fs;
  resolve := posix_resolve fs;
  cwd := fs_cwd fs
|}.

(** A machine whose working directory [/work] holds a symbolic link
    named [report] that points to [/etc]. *)
Definition linked_fs : filesystem := {|
  fs_cwd := [pystr "work"];
  fs_home := pystr "/home/user";
  fs_links := {[ [pystr "work"; pystr "report"] := pystr "/etc" ]}
|}.

(** A machine without symbolic links. *)
Definition plain_fs : filesystem := {|
  fs_cwd := [pystr "work"];
  fs_home := pystr "/home/user";
  fs_links := ∅
|}.

(** ** Sandboxed executor *)

(** What the operating system has seen: the files in the temporary
    directory (name, content) and the process events, oldest first. *)
Inductive event :=
| Spawned (argv : list str) (env : list (str * str)) (dir : path) (timeout : Z)
| Killed
| Unlinked (name : str).

Record world := {
  tmpfiles : gmap str str;
  trace : list event
}.

Definition is_spawn (ev : event) : bool :=
  match ev with Spawned _ _ _ _ => true | _ => false end.

Definition spawn_count (w : world) : nat :=
  length (List.filter is_spawn (trace w)).

(** What [subprocess.run] meets: the child exits by itself and its output
    is handed back; the child is still running when the timeout expires;
    the child cannot be started; or the child was started and exited with
    [returncode], but [subprocess.run] raised while collecting its output
    (with [text=True], output that cannot be decoded). *)
Inductive child_outcome :=
| Exits (returncode : Z) (stdout stderr : str)
| Hangs
| SpawnFails (e : exn)
| RunFails (returncode : Z) (e : exn).

(** How writing the temporary file can fail: the file cannot be created,
    or it is created and the write (or the close) raises, leaving the file
    with what was written so far. *)
Inductive write_failure :=
| CreateFails (e : exn)
| WriteFails (e : exn) (written : str).

(** The machine an invocation runs on. *)
Record Host := {
  environ : gmap str str;               (* [os.environ] *)
  executable : str;                     (* [sys.executable] *)
  host_cwd : path;                      (* [Path.cwd()] *)
  temp_name : str;                      (* name picked by [NamedTemporaryFile] *)
  temp_failure : option write_failure;   (* how writing that file fails, if it does *)
  child : list str -> Z -> child_outcome;
  child_files : gmap str str -> gmap str str;
                                        (* what the running child does to the files *)
  unlink_error : option exn             (* why [unlink] of an existing file fails *)
}.

Record CompletedProcess := {
  returncode : Z;
  stdout : str;
  stderr : str
}.

(** Computations that change the world and may raise. *)
Definition M (A : Type) : Type := world -> result A * world.

Definition ret {A} (a : A) : M A := fun w => (Returned a, w).

Definition raise {A} (e : exn) : M A := fun w => (Raised e, w).

Definition bind {A B} (m : M A) (k : A -> M B) : M B :=
  fun w =>
    match m w with
    | (Returned a, w') => k a w'
    | (Raised e, w') => (Raised e, w')
    end.

Notation "x ←@ m ; k" := (bind m (fun x => k))
  (at level 100, m at next level, right associativity).

(** [try: body / except ...: handler e] *)
Definition try_except {A} (body : M A) (handler : exn -> M A) : M A :=
  fun w =>
    match body w with
    | (Returned a, w') => (Returned a, w')
    | (Raised e, w') => handler e w'
    end.

(** [try: body / finally: cleanup] -- the cleanup runs on every way out
    of the body; an exception of the cleanup replaces the body's outcome. *)
Definition try_finally {A} (body : M A) (cleanup : M unit) : M A :=
  fun w =>
    let '(r, w') := body w in
    match cleanup w' with
    | (Returned _, w'') => (r, w'')
    | (Raised e, w'') => (Raised e, w'')
    end.

Definition log (ev : event) : M unit :=
  fun w => (Returned tt, {| tmpfiles := tmpfiles w; trace := trace w ++ [ev] |}).

(** [with NamedTemporaryFile(mode='w', suffix='.py', delete=False) as f:
    f.write(code); temp_path = f.name] *)
Definition write_temp_file (h : Host) (code : str) : M str :=
  fun w =>
    match temp_failure h with
    | Some (CreateFails e) => (Raised e, w)
    | Some (WriteFails e written) =>
        (Raised e,
         {| tmpfiles := <[temp_name h := written]> (tmpfiles w);
            trace := trace w |})
    | None =>
        (Returned (temp_name h),
         {| tmpfiles := <[temp_name h := code]> (tmpfiles w);
            trace := trace w |})
    end.

(** The child at work: validated code may still use [pathlib] and so
    remove or rewrite files, its own script included. *)
Definition child_runs (h : Host) : M unit :=
  fun w =>
    (Returned tt,
     {| tmpfiles := child_files h (tmpfiles w); trace := trace w |}).

(** [subprocess.run(argv, capture_output=True, text=True, timeout=...,
    env=..., cwd=...)]: a child that outlives the timeout is killed before
    [TimeoutExpired] is raised. *)
Definition subprocess_run (h : Host) (argv : list str)
    (env : list (str * str)) (dir : path) (timeout : Z) : M CompletedProcess :=
  match child h argv timeout with
  | Exits rc out err =>
      _ ←@ log (Spawned argv env dir timeout);
      _ ←@ child_runs h;
      ret {| returncode := rc; stdout := out; stderr := err |}
  | Hangs =>
      _ ←@ log (Spawned argv env dir timeout);
      _ ←@ child_runs h;
      _ ←@ log Killed;
      raise (TimeoutExpired (pystr "timed out"))
  | SpawnFails e => raise e
  | RunFails rc e =>
      _ ←@ log (Spawned argv env dir timeout);
      _ ←@ child_runs h;
      raise e
  end.

(** [Path(name).unlink()]: [FileNotFoundError], an [OSError], when the
    file is not there. *)
Definition unlink (h : Host) (name : str) : M unit :=
  fun w =>
    match tmpfiles w !! name with
    | None => (Raised (OSError (pystr "No such file or directory")), w)
    | Some _ =>
        match unlink_error h with
        | Some e => (Raised e, w)
        | None =>
            (Returned tt,
             {| tmpfiles := delete name (tmpfiles w);
                trace := trace w ++ [Unlinked name] |})
        end
    end.

(** [os.environ.get(key, '')] *)
Definition environ_get (h : Host) (key : string) : str :=
  default [] (environ h !! pystr key).

Definition minimal_env (h : Host) : list (str * str) :=
  (fun key => (pystr key, environ_get h key))
    <$> ["PATH"; "PYTHONPATH"; "HOME"; "TEMP"; "TMP"; "USERPROFILE"]%string.

Definition validation_failed_msg (errors : list str) : str :=
  pystr "Code validation failed:" ++ [NEWLINE]
  ++ join [NEWLINE] ((fun e => pystr "  - " ++ e) <$> errors).

Definition execution_error_msg (err : str) : str :=
  pystr "Execution error:" ++ [NEWLINE] ++ err.

Definition timed_out_msg (timeout : Z) : str :=
  pystr "Execution timed out after " ++ str_of_Z timeout ++ pystr " seconds".

Definition execution_failed_msg (e : exn) : str :=
  pystr "Execution failed: " ++ exn_str e.

(** [execute_diagram_code]: [(success, output_or_error)] *)
Definition execute_diagram_code (parse : str -> parse_result)
    (P : PolicyTables) (h : Host) (code : str) (timeout : Z)
    : M (bool * str) :=
  match validate_code parse P code with
  | Raised e => raise e
  | Returned (is_valid, errors) =>
      if negb is_valid then ret (false, validation_failed_msg errors)
      else
        temp_path ←@ write_temp_file h code;
        try_finally
          (try_except
             (let env := minimal_env h in
              result ←@ subprocess_run h [executable h; temp_path] env
                         (host_cwd h) timeout;
              if (returncode result =? 0)%Z then ret (true, stdout result)
              else ret (false, execution_error_msg (stderr result)))
             (fun e =>
                match e with
                | TimeoutExpired _ => ret (false, timed_out_msg timeout)
                | _ => ret (false, execution_failed_msg e)
                end))
          (try_except (unlink h temp_path) (fun _ => ret tt))
  end.

(** *** Sample runs *)

(** Source text with a lone surrogate (code point 56448), as an output
    name of that kind puts into the generated code. *)
Definition surrogate_code : str := [97; 56448; 98].

(** A stand-in for [ast.parse] that knows four programs and the source
    it cannot encode.  The fourth program prints a lone surrogate, written
    as an escape: under the C locale that the scrubbed environment gives
    the child, standard output encodes it to the single byte 0xff. *)
Definition sample_parse (code : str) : parse_result :=
  if bool_decide (code = surrogate_code) then
    ParseRaises (ValueError (pystr "'utf-8' codec can't encode character"))
  else if bool_decide (code = pystr "import numpy") then
    Parsed (Other [Import [{| alias_name := pystr "numpy"; alias_asname := None |}]])
  else if bool_decide (code = pystr "import os") then
    Parsed (Other [Import [{| alias_name := pystr "os"; alias_asname := None |}]])
  else if bool_decide (code = pystr "from . import x") then
    Parsed (Other [ImportFrom None
                     [{| alias_name := pystr "x"; alias_asname := None |}] 1])
  else if bool_decide (code = pystr "print('\udcff')") then
    Parsed (Other [Other [Call (Name (pystr "print")) [Other []] []]])
  else SyntaxError (pystr "invalid syntax (<unknown>, line 1)").

Definition sample_host (c : child_outcome) (ue : option exn) : Host := {|
  environ := {[ pystr "PATH" := pystr "/usr/bin"; pystr "SECRET" := pystr "x" ]};
  executable := pystr "/usr/bin/python3";
  host_cwd := [pystr "work"];
  temp_name := pystr "/tmp/tmpab12cd34.py";
  temp_failure := None;
  child := fun _ _ => c;
  child_files := fun files => files;
  unlink_error := ue
|}.

(** The same machine with a failing write of the temporary file, or with
    a child that removes its own script. *)
Definition sample_host_with (tf : option write_failure)
    (files : gmap str str -> gmap str str) (c : child_outcome)
    (ue : option exn) : Host := {|
  environ := environ (sample_host c ue);
  executable := executable (sample_host c ue);
  host_cwd := host_cwd (sample_host c ue);
  temp_name := temp_name (sample_host c ue);
  temp_failure := tf;
  child := fun _ _ => c;
  child_files := files;
  unlink_error := ue
|}.

Definition empty_world : world := {| tmpfiles := ∅; trace := [] |}.

(** ** Vocabulary of the properties

    Definitions that only the statements below use. *)

(** *** Strings and policies *)

(** The text of [s] before the first occurrence of [sep] (all of [s] when
    there is none). *)
Fixpoint before_first (sep : N) (s : str) : str :=
  match s with
  | [] => []
  | c :: s' => if c =? sep then [] else c :: before_first sep s'
  end.

(** A policy whose only allow-listed module is [pkg.allowed]. *)
Definition pkg_policy : PolicyTables := {|
  ALLOWED_IMPORTS := {[ pystr "pkg.allowed" ]};
  BLOCKED_BUILTINS := ∅;
  BLOCKED_ATTRIBUTES := ∅;
  BLOCKED_IMPORTS := {[ pystr "os" ]};
  ALLOWED_OUTPUT_DIRS := ∅
|}.

(** *** Sanitizers *)

(** [sub] occurs in [s] as a contiguous run of characters. *)
Definition occurs (sub s : str) : Prop := ∃ l r, s = l ++ sub ++ r.

(** Characters with a meaning to a shell or to Python source that the
    display name must not carry. *)
Definition SHELL_CHARS : str := pystr ";`$&|<>\{}[]*~#%^=+/:@".

(** *** Validator *)

(** Induction over syntax trees, with the hypothesis available for every
    child of a node. *)
Section node_induction.
Variable Q : node → Prop.
Hypothesis HImport : ∀ names, Q (Import names).
Hypothesis HImportFrom : ∀ module names level, Q (ImportFrom module names level).
Hypothesis HCall : ∀ func args keywords,
  Q func → Forall Q args → Forall Q keywords → Q (Call func args keywords).
Hypothesis HAttribute : ∀ value attr, Q value → Q (Attribute value attr).
Hypothesis HName : ∀ id, Q (Name id).
Hypothesis HOther : ∀ children, Forall Q children → Q (Other children).

Fixpoint node_induction (n : node) : Q n :=
  let all :=
    fix all (ns : list node) : Forall Q ns :=
      match ns with
      | [] => @List.Forall_nil node Q
      | c :: cs => @List.Forall_cons node Q c cs (node_induction c) (all cs)
      end in
  match n with
  | Import names => HImport names
  | ImportFrom module names level => HImportFrom module names level
  | Call func args keywords =>
      HCall func args keywords (node_induction func) (all args) (all keywords)
  | Attribute value attr => HAttribute value attr (node_induction value)
  | Name id => HName id
  | Other children => HOther children (all children)
  end.
End node_induction.

(** All nodes of a tree, the node itself first, children in field order. *)
Fixpoint subnodes (n : node) : list node :=
  n :: match n with
       | Call func args keywords =>
           subnodes func ++ flat_map subnodes args ++ flat_map subnodes keywords
       | Attribute value _ => subnodes value
       | Other children => flat_map subnodes children
       | Import _ | ImportFrom _ _ _ | Name _ => []
       end.

(** What the visitor method of one node reports, children aside. *)
Definition findings (P : PolicyTables) (n : node) : list str :=
  match n with
  | Import names => check_aliases P names []
  | ImportFrom module _ _ => check_module P module []
  | Call func _ _ => check_call P func []
  | Attribute _ attr => check_attribute P attr []
  | Name _ | Other _ => []
  end.

(** The kinds of violation, read off the message. *)
Definition is_import_violation (v : str) : Prop := ∃ m, v = blocked_import_msg m.
Definition is_builtin_violation (v : str) : Prop := ∃ f, v = blocked_builtin_msg f.
Definition is_attribute_violation (v : str) : Prop := ∃ a, v = blocked_attribute_msg a.

(** A tree whose import statements are all relative: no [Import] node,
    and no [ImportFrom] node that names a module. *)
Definition relative_imports_only (tree : node) : bool :=
  forallb (λ n, match n with
                | Import _ | ImportFrom (Some _) _ _ => false
                | _ => true
                end) (subnodes tree).

(** *** Executor and paths *)


(** The resolved path lies in the working directory or in an allowed
    directory: it equals the directory or continues it. *)
Definition confined (pf : Platform) (P : PolicyTables) (p : path) : Prop :=
  cwd pf `prefix_of` p
  ∨ ∃ d r, d ∈ ALLOWED_OUTPUT_DIRS P
           ∧ resolve pf (expanduser pf d) = Returned r
           ∧ r `prefix_of` p.

(** ** Diagram generation *)

(** An entry of [PATTERNS]. *)
Record pattern_entry := {
  description : str;
  template : str
}.

(** [PATTERNS]: the dict literal as the list of its items in source
    order; its keys are distinct. *)
Abbreviation patterns := (list (str * pattern_entry)).

(** [PATTERNS[key]], [None] when [key not in PATTERNS]. *)
Definition pattern_lookup (PATTERNS : patterns) (key : str)
    : option pattern_entry :=
  snd <$> List.find (λ kv, bool_decide (fst kv = key)) PATTERNS.

(** How a run of the script ends: it returns, or it leaves through
    [sys.exit(code)]. *)
Inductive outcome :=
| Completed
| SystemExit (code : Z).

Definition unknown_pattern_lines (PATTERNS : patterns) (pattern : str)
    : list str :=
  [pystr "Error: Unknown pattern '" ++ pattern ++ pystr "'";
   pystr "Available patterns: " ++ join (pystr ", ") (fst <$> PATTERNS)].

(** [generate_diagram]: what it prints (one item per call of [print]) and
    how it ends.  [format template name output] stands for
    [template.format(name=name, output=output)]. *)
Definition generate_diagram (parse : str → parse_result) (P : PolicyTables)
    (pf : Platform) (h : Host) (format : str → str → str → result str)
    (PATTERNS : patterns) (name pattern output : str)
    : M (list str * outcome) :=
  match pattern_lookup PATTERNS pattern with
  | None => ret (unknown_pattern_lines PATTERNS pattern, SystemExit 1)
  | Some entry =>
      let safe_name := sanitize_name name in
      let safe_output := sanitize_output output in
      match validate_output_path pf P safe_output with
      | Raised e => raise e
      | Returned (is_valid, error) =>
          if negb is_valid
          then ret ([pystr "Error: " ++ default (pystr "None") error],
                    SystemExit 1)
          else
            match format (template entry) safe_name safe_output with
            | Raised e => raise e
            | Returned code =>
                r ←@ execute_diagram_code parse P h code EXECUTION_TIMEOUT;
                if fst r
                then ret ([pystr "Generated: " ++ safe_output ++ pystr ".svg"],
                          Completed)
                else ret ([pystr "Error generating diagram:" ++ [NEWLINE]
                           ++ snd r],
                          SystemExit 1)
            end
      end
  end.

(** *** More sample inputs *)

(** A stand-in for [ast.parse] that knows a call of [eval], an alias of
    it, and a read of [__class__]. *)
Definition sample_parse_calls (code : str) : parse_result :=
  if bool_decide (code = pystr "eval(x)") then
    Parsed (Other [Other [Call (Name (pystr "eval")) [Name (pystr "x")] []]])
  else if bool_decide (code = pystr "f = eval") then
    Parsed (Other [Other [Name (pystr "f"); Name (pystr "eval")]])
  else if bool_decide (code = pystr "x.__class__") then
    Parsed (Other [Other [Attribute (Name (pystr "x")) (pystr "__class__")]])
  else SyntaxError (pystr "invalid syntax (<unknown>, line 1)").

(** A format that ignores its template. *)
Definition sample_format (template name output : str) : result str :=
  Returned (pystr "import numpy").

Definition sample_patterns : patterns :=
  [(pystr "api-led",
    {| description := pystr "API-Led Connectivity"; template := pystr "t" |})].

(** *** More vocabulary *)

(** [P'] is at least as strict as [P]: it blocks at least as much and
    allows at most the same imports. *)
Definition stricter (P P' : PolicyTables) : Prop :=
  BLOCKED_IMPORTS P ⊆ BLOCKED_IMPORTS P'
  ∧ BLOCKED_BUILTINS P ⊆ BLOCKED_BUILTINS P'
  ∧ BLOCKED_ATTRIBUTES P ⊆ BLOCKED_ATTRIBUTES P'
  ∧ ALLOWED_IMPORTS P' ⊆ ALLOWED_IMPORTS P.

(** The policy of the script with one more blocked builtin. *)
Definition stricter_configuration : PolicyTables := {|
  ALLOWED_IMPORTS := ALLOWED_IMPORTS SECURITY_CONFIGURATION;
  BLOCKED_BUILTINS := {[ pystr "print" ]} ∪ BLOCKED_BUILTINS SECURITY_CONFIGURATION;
  BLOCKED_ATTRIBUTES := BLOCKED_ATTRIBUTES SECURITY_CONFIGURATION;
  BLOCKED_IMPORTS := BLOCKED_IMPORTS SECURITY_CONFIGURATION;
  ALLOWED_OUTPUT_DIRS := ALLOWED_OUTPUT_DIRS SECURITY_CONFIGURATION
|}.

(** The violations of one node, written out: per imported name that is
    not allowed, per from-import of a named module that is not allowed,
    per call whose target name is a blocked builtin, per attribute access
    whose attribute is blocked. *)
Definition violations_of (P : PolicyTables) (n : node) : list str :=
  match n with
  | Import names =>
      (λ a, pystr "Blocked import: '" ++ alias_name a ++ pystr "'")
        <$> filter (λ a, _is_allowed_import P (alias_name a) = false) names
  | ImportFrom (Some m) _ _ =>
      if bool_decide (m ≠ [] ∧ _is_allowed_import P m = false)
      then [pystr "Blocked import: '" ++ m ++ pystr "'"] else []
  | ImportFrom None _ _ => []
  | Call (Name id) _ _ | Call (Attribute _ id) _ _ =>
      if bool_decide (id ∈ BLOCKED_BUILTINS P)
      then [pystr "Blocked builtin call: '" ++ id ++ pystr "()'"] else []
  | Call _ _ _ => []
  | Attribute _ attr =>
      if bool_decide (attr ∈ BLOCKED_ATTRIBUTES P)
      then [pystr "Blocked attribute access: '" ++ attr ++ pystr "'"] else []
  | Name _ | Other _ => []
  end.

(** The call nodes of a tree whose target is the name [id], bare or as
    the attribute of an attribute access. *)
Definition calls_of (id : str) (tree : node) : list node :=
  List.filter (λ n, match n with
                    | Call (Name f) _ _ | Call (Attribute _ f) _ _ =>
                        bool_decide (f = id)
                    | _ => false
                    end) (subnodes tree).

(** A stand-in for [ast.parse] that knows a call passing [eval] on as an
    argument. *)
Definition sample_parse_args (code : str) : parse_result :=
  if bool_decide (code = pystr "map(eval, xs)") then
    Parsed (Other [Other [Call (Name (pystr "map"))
                            [Name (pystr "eval"); Name (pystr "xs")] []]])
  else SyntaxError (pystr "invalid syntax (<unknown>, line 1)").

(** * Properties *)

(** ** Sample evaluations *)

Example allowed_exact :
  _is_allowed_import SECURITY_CONFIGURATION (pystr "matplotlib.pyplot") = true.
Proof. vm_compute. reflexivity. Qed.

Example allowed_submodule :
  _is_allowed_import SECURITY_CONFIGURATION (pystr "numpy.linalg") = true.
Proof. vm_compute. reflexivity. Qed.

Example blocked_base :
  _is_allowed_import SECURITY_CONFIGURATION (pystr "os.path") = false.
Proof. vm_compute. reflexivity. Qed.

Example bare_prefix_rejected :
  _is_allowed_import SECURITY_CONFIGURATION (pystr "numpyx") = false.
Proof. vm_compute. reflexivity. Qed.

Example split_dots :
  split DOT (pystr "a..b.") = [pystr "a"; []; pystr "b"; []].
Proof. vm_compute. reflexivity. Qed.

Example replace_dot_runs :
  replace DOTDOT [] (pystr "a...b.. ..") = pystr "a.b ".
Proof. vm_compute. reflexivity. Qed.

Example sanitize_output_traversal :
  sanitize_output (pystr "../../etc/passwd") = pystr "etcpasswd".
Proof. vm_compute. reflexivity. Qed.

Example sanitize_output_four_dots :
  sanitize_output (pystr "....") = [].
Proof. vm_compute. reflexivity. Qed.

Example sanitize_output_split_dots :
  sanitize_output (pystr "a./.b.:.c") = pystr "abc".
Proof. vm_compute. reflexivity. Qed.

Example sanitize_name_shell :
  sanitize_name (pystr "My `rm -rf`; $(x) & Co.") = pystr "My rm -rf (x)  Co.".
Proof. vm_compute. reflexivity. Qed.

Example resolve_plain_stem :
  posix_resolve plain_fs (pystr "report")
  = Returned [pystr "work"; pystr "report"].
Proof. vm_compute. reflexivity. Qed.

Example resolve_linked_stem :
  posix_resolve linked_fs (pystr "report") = Returned [pystr "etc"].
Proof. vm_compute. reflexivity. Qed.

Example resolve_home_outputs :
  posix_resolve plain_fs (posix_expanduser plain_fs (pystr "~/outputs"))
  = Returned [pystr "home"; pystr "user"; pystr "outputs"].
Proof. vm_compute. reflexivity. Qed.

Example validate_tmp :
  validate_output_path (posix plain_fs) SECURITY_CONFIGURATION
    (pystr "/tmp/x/../y") = Returned (true, None).
Proof. vm_compute. reflexivity. Qed.

Example validate_etc :
  fst <$> (match validate_output_path (posix plain_fs) SECURITY_CONFIGURATION
                   (pystr "/etc/passwd") with
           | Returned r => Some r | Raised _ => None end) = Some false.
Proof. vm_compute. reflexivity. Qed.

Example run_ok :
  fst (execute_diagram_code sample_parse SECURITY_CONFIGURATION
         (sample_host (Exits 0 (pystr "done") []) None)
         (pystr "import numpy") 60 empty_world)
  = Returned (true, pystr "done").
Proof. vm_compute. reflexivity. Qed.

Example run_rejected :
  execute_diagram_code sample_parse SECURITY_CONFIGURATION
    (sample_host (Exits 0 (pystr "done") []) None)
    (pystr "import os") 60 empty_world
  = (Returned (false, pystr "Code validation failed:" ++ [NEWLINE]
                      ++ pystr "  - Blocked import: 'os'"),
     empty_world).
Proof. vm_compute. reflexivity. Qed.

Example run_env_scrubbed :
  minimal_env (sample_host Hangs None)
  = [(pystr "PATH", pystr "/usr/bin"); (pystr "PYTHONPATH", []);
     (pystr "HOME", []); (pystr "TEMP", []); (pystr "TMP", []);
     (pystr "USERPROFILE", [])].
Proof. vm_compute. reflexivity. Qed.

Example run_timeout :
  fst (execute_diagram_code sample_parse SECURITY_CONFIGURATION
         (sample_host Hangs None) (pystr "import numpy") 60 empty_world)
  = Returned (false, pystr "Execution timed out after 60 seconds").
Proof. vm_compute. reflexivity. Qed.

(** ** Strings *)

Lemma startswith_prefix (s p : str) :
  startswith s p = true ↔ p `prefix_of` s.
Proof.
  revert s. induction p as [|a p IH]; intros s; simpl.
  - split; [intros _; apply prefix_nil | done].
  - destruct s as [|b s].
    + split; [done | intros H; by apply prefix_nil_not in H].
    + rewrite andb_true_iff, N.eqb_eq, IH. split.
      * intros [-> H]. by apply prefix_cons.
      * intros H. split; [by apply prefix_cons_inv_1 in H | by apply prefix_cons_inv_2 in H].
Qed.

Lemma split_nonempty (sep : N) (s : str) : split sep s ≠ [].
Proof.
  destruct s as [|c s]; simpl; [done|].
  destruct (c =? sep); [done|]. by destruct (split sep s).
Qed.

Lemma split_head (sep : N) (s : str) :
  split sep s !! 0%nat = Some (before_first sep s).
Proof.
  induction s as [|c s IH]; simpl; [done|].
  destruct (c =? sep); [done|].
  destruct (split sep s) as [|seg segs]; simpl in *; [done|].
  by inversion IH.
Qed.

Lemma before_first_no_sep (sep : N) (s : str) : sep ∉ before_first sep s.
Proof.
  induction s as [|c s IH]; simpl; [apply not_elem_of_nil|].
  destruct (N.eqb_spec c sep); [apply not_elem_of_nil|].
  rewrite not_elem_of_cons. split; [congruence | done].
Qed.

Lemma before_first_prefix (sep : N) (s : str) :
  s = before_first sep s ∨ ∃ rest, s = before_first sep s ++ sep :: rest.
Proof.
  induction s as [|c s IH]; simpl; [by left|].
  destruct (N.eqb_spec c sep) as [->|Hne].
  - right. by exists s.
  - destruct IH as [IH|[rest IH]].
    + left. by f_equal.
    + right. exists rest. simpl. by f_equal.
Qed.

(** ** Import policy *)

Lemma existsb_elements (f : str -> bool) (X : gset str) :
  existsb f (elements X) = true ↔ ∃ a, a ∈ X ∧ f a = true.
Proof.
  rewrite existsb_exists. split; intros (a & Ha & Hf); exists a; split;
    try done; [by apply elem_of_elements, list_elem_of_In
              | by apply list_elem_of_In, elem_of_elements].
Qed.

Lemma is_allowed_import_iff (P : PolicyTables) (module_name : str) :
  _is_allowed_import P module_name = true ↔
    (before_first DOT module_name ∉ BLOCKED_IMPORTS P)
    ∧ (module_name ∈ ALLOWED_IMPORTS P
       ∨ ∃ allowed rest, allowed ∈ ALLOWED_IMPORTS P
                         ∧ module_name = allowed ++ DOT :: rest).
Proof.
  unfold _is_allowed_import. rewrite split_head. simpl.
  case_bool_decide; [|case_bool_decide].
  - split; [done | by intros [? _]].
  - split; [intros _; split; [done | by left] | done].
  - rewrite existsb_elements. split.
    + intros (a & Ha & Hp). split; [done|]. right.
      apply startswith_prefix in Hp as [rest ->].
      exists a, rest. by rewrite <- app_assoc.
    + intros [_ [?|(a & rest & Ha & ->)]]; [done|].
      exists a. split; [done|]. apply startswith_prefix.
      exists rest. by rewrite <- app_assoc.
Qed.

(** The loop of [visit_Import] reports the names that are not allowed, in
    the order of the statement. *)
Lemma check_aliases_filter (P : PolicyTables) (names : list alias)
    (errors : list str) :
  check_aliases P names errors
  = errors ++ ((λ a, blocked_import_msg (alias_name a))
               <$> filter (λ a, _is_allowed_import P (alias_name a) = false) names).
Proof.
  unfold check_aliases. revert errors.
  induction names as [|a names IH]; intros errors; simpl.
  - by rewrite app_nil_r.
  - rewrite IH, filter_cons.
    destruct (decide (_is_allowed_import P (alias_name a) = false)) as [Ha|Ha].
    + rewrite Ha. simpl. by rewrite <- app_assoc.
    + apply not_false_is_true in Ha. by rewrite Ha.
Qed.

(** C2: a module name is accepted exactly when the text before its first
    dot is not in BLOCKED_IMPORTS and the full name is an entry of
    ALLOWED_IMPORTS or an entry followed by a dot and more text.  In
    particular a blocked base is rejected whatever the allow-set holds, and
    an entry followed by a character other than a dot is rejected when that
    entry is the only one allow-listed.  The import and from-import
    visitors report exactly the names that are not accepted. *)
Theorem is_allowed_import_spec :
  (∀ (P : PolicyTables) (module_name : str),
      _is_allowed_import P module_name = true ↔
        (before_first DOT module_name ∉ BLOCKED_IMPORTS P)
        ∧ (module_name ∈ ALLOWED_IMPORTS P
           ∨ ∃ allowed rest, allowed ∈ ALLOWED_IMPORTS P
                             ∧ module_name = allowed ++ DOT :: rest))
  ∧ (∀ module_name : str,
        (DOT ∉ before_first DOT module_name)
        ∧ (module_name = before_first DOT module_name
           ∨ ∃ rest, module_name = before_first DOT module_name ++ DOT :: rest))
  ∧ (∀ (P : PolicyTables) (module_name : str),
        before_first DOT module_name ∈ BLOCKED_IMPORTS P →
        _is_allowed_import P module_name = false)
  ∧ (∀ (P : PolicyTables) (allowed : str) (c : N) (rest : str),
        ALLOWED_IMPORTS P = {[ allowed ]} → c ≠ DOT →
        _is_allowed_import P (allowed ++ c :: rest) = false)
  ∧ (∀ (P : PolicyTables) (names : list alias) (errors : list str),
        visit P (Import names) errors
        = errors ++ ((λ a, blocked_import_msg (alias_name a))
                     <$> filter (λ a, _is_allowed_import P (alias_name a) = false)
                                names))
  ∧ (∀ (P : PolicyTables) (c : N) (m : str) names level (errors : list str),
        visit P (ImportFrom (Some (c :: m)) names level) errors
        = if _is_allowed_import P (c :: m) then errors
          else errors ++ [blocked_import_msg (c :: m)]).
Proof.
  split; [exact is_allowed_import_iff|].
  split; [|split; [|split; [|split]]].
  - intros m. split; [apply before_first_no_sep | apply before_first_prefix].
  - intros P m Hb. apply not_true_is_false. intros H.
    apply is_allowed_import_iff in H as [H _]. done.
  - intros P a c rest HP Hc. apply not_true_is_false. intros H.
    apply is_allowed_import_iff in H as [_ H]. rewrite HP in H.
    destruct H as [H|(a' & rest' & Ha' & H)].
    + apply elem_of_singleton in H. apply (f_equal length) in H.
      rewrite length_app in H. simpl in H. lia.
    + apply elem_of_singleton in Ha' as ->.
      apply app_inv_head in H. congruence.
  - intros P names errors. apply check_aliases_filter.
  - intros P c m names level errors. simpl.
    by destruct (_is_allowed_import P (c :: m)).
Qed.

Lemma is_allowed_import_spec_witness :
  _is_allowed_import SECURITY_CONFIGURATION (pystr "os.path") = false
  ∧ _is_allowed_import pkg_policy (pystr "pkg.allowedx") = false.
Proof.
  destruct is_allowed_import_spec as (_ & _ & Hdeny & Hdot & _). split.
  - apply Hdeny. apply (bool_decide_unpack _). vm_compute. reflexivity.
  - apply (Hdot pkg_policy (pystr "pkg.allowed") 120 []); [reflexivity | discriminate].
Defined.

(** ** Sanitizers *)

Lemma re_sub_class_filter (cls : N -> bool) (s : str) :
  re_sub_class cls [] s = filter (λ c, cls c = false) s.
Proof.
  unfold re_sub_class. induction s as [|c s IH]; simpl; [done|].
  rewrite filter_cons. destruct (decide (cls c = false)) as [Hc|Hc].
  - rewrite Hc. simpl. by f_equal.
  - apply not_false_is_true in Hc. by rewrite Hc.
Qed.

Lemma re_sub_class_id (cls : N -> bool) (s : str) :
  (∀ c, c ∈ s → cls c = false) → re_sub_class cls [] s = s.
Proof.
  intros H. rewrite re_sub_class_filter.
  induction s as [|c s IH]; [done|].
  rewrite filter_cons, decide_True by (apply H; left).
  f_equal. apply IH. intros c' Hc'. apply H. by right.
Qed.

Lemma occurs_cons_inv (sub : str) (c : N) (s : str) :
  occurs sub (c :: s) → sub `prefix_of` (c :: s) ∨ occurs sub s.
Proof.
  intros (l & r & H). destruct l as [|c' l]; simpl in H.
  - left. exists r. done.
  - right. exists l, r. by inversion H.
Qed.

Lemma occurs_length (sub s : str) :
  occurs sub s → (length sub ≤ length s)%nat.
Proof. intros (l & r & ->). rewrite !length_app. lia. Qed.

Lemma occurs_take (sub : str) (n : nat) (s : str) :
  occurs sub (take n s) → occurs sub s.
Proof.
  intros (l & r & H). exists l, (r ++ drop n s).
  rewrite <- (take_drop n s) at 1. rewrite H. by rewrite <- !app_assoc.
Qed.

(** Where the scan of [replace] finds no match it keeps the character. *)
Lemma replace_no_match (old new : str) (c : N) (s : str) :
  startswith (c :: s) old = false →
  replace old new (c :: s) = c :: replace old new s.
Proof. unfold replace. simpl. by intros ->. Qed.

(** Where it finds the two dots it drops both and goes on behind them. *)
Lemma replace_dotdot_match (r : str) :
  replace DOTDOT [] (DOT :: DOT :: r) = replace DOTDOT [] r.
Proof. reflexivity. Qed.

Lemma startswith_dotdot (c : N) (s : str) :
  startswith (c :: s) DOTDOT = true ↔ c = DOT ∧ ∃ r, s = DOT :: r.
Proof.
  rewrite startswith_prefix. split.
  - intros [r H]. inversion H. split; [done | by eexists].
  - intros [-> [r ->]]. by exists r.
Qed.

Lemma replace_dotdot_keep (c : N) (s : str) :
  c ≠ DOT → replace DOTDOT [] (c :: s) = c :: replace DOTDOT [] s.
Proof.
  intros Hc. apply replace_no_match. apply not_true_is_false.
  rewrite startswith_dotdot. by intros [? _].
Qed.

(** One pass over the text leaves no two adjacent dots: a run of dots is
    consumed pairwise from the left, so at most one dot of it survives,
    and the characters between two runs are never removed. *)
Lemma replace_dotdot_clean_aux (s : str) :
  ¬ occurs DOTDOT (replace DOTDOT [] s)
  ∧ ∀ c, ¬ occurs DOTDOT (replace DOTDOT [] (c :: s)).
Proof.
  induction s as [|d s [IH0 IH1]].
  - split; [|intros c]; intros H%occurs_length; revert H;
      unfold replace; simpl; rewrite ?andb_false_r; simpl; lia.
  - split; [apply IH1|]. intros c.
    destruct (decide (c = DOT ∧ d = DOT)) as [[-> ->]|Hcd].
    + by rewrite replace_dotdot_match.
    + rewrite replace_no_match.
      2:{ apply not_true_is_false. rewrite startswith_dotdot.
          intros [-> [r Hr]]. inversion Hr. by apply Hcd. }
      intros Hocc. apply occurs_cons_inv in Hocc as [Hpre|Hocc];
        [|by apply (IH1 d)].
      destruct (decide (d = DOT)) as [->|Hd].
      * destruct Hpre as [r Hr]. inversion Hr as [[Hc Hr']].
        by apply Hcd.
      * rewrite replace_dotdot_keep in Hpre by done.
        destruct Hpre as [r Hr]. inversion Hr. done.
Qed.

Lemma replace_dotdot_clean (s : str) : ¬ occurs DOTDOT (replace DOTDOT [] s).
Proof. apply replace_dotdot_clean_aux. Qed.

(** Text without a match is left as it is. *)
Lemma replace_id (old new s : str) :
  ¬ occurs old s → replace old new s = s.
Proof.
  induction s as [|c s IH]; intros H; [done|].
  rewrite replace_no_match.
  - f_equal. apply IH. intros (l & r & ->). apply H. by exists (c :: l), r.
  - apply not_true_is_false. rewrite startswith_prefix.
    intros [r Hr]. apply H. by exists [], r.
Qed.

Lemma replace_dotdot_single (c : N) : replace DOTDOT [] [c] = [c].
Proof. unfold replace. simpl. by rewrite andb_false_r. Qed.

(** The pass only removes characters: its result is a subsequence. *)
Lemma replace_dotdot_sublist_aux (s : str) :
  replace DOTDOT [] s `sublist_of` s
  ∧ ∀ c, replace DOTDOT [] (c :: s) `sublist_of` c :: s.
Proof.
  induction s as [|d s [IH0 IH1]].
  - split; [done|]. intros c. by rewrite replace_dotdot_single.
  - split; [apply IH1|]. intros c.
    destruct (decide (c = DOT ∧ d = DOT)) as [[-> ->]|Hcd].
    + rewrite replace_dotdot_match. by do 2 apply sublist_cons.
    + rewrite replace_no_match; [apply sublist_skip, IH1|].
      apply not_true_is_false. rewrite startswith_dotdot.
      intros [-> [r Hr]]. inversion Hr. by apply Hcd.
Qed.

Lemma replace_dotdot_sublist (s : str) : replace DOTDOT [] s `sublist_of` s.
Proof. apply replace_dotdot_sublist_aux. Qed.

Lemma sanitize_output_sublist (output : str) :
  sanitize_output output `sublist_of` filter (λ c, path_char c = false) output.
Proof.
  unfold sanitize_output, slice_to. rewrite re_sub_class_filter.
  etrans; [apply sublist_take | apply replace_dotdot_sublist].
Qed.

Lemma sanitize_output_chars (output : str) (c : N) :
  c ∈ sanitize_output output → c ∉ PATH_CHARS.
Proof.
  intros Hc. eapply elem_of_sublist in Hc; [|apply sanitize_output_sublist].
  apply list_elem_of_filter in Hc as [Hc _].
  unfold path_char, one_of in Hc. by apply bool_decide_eq_false in Hc.
Qed.

Lemma sanitize_output_no_dotdot (output : str) :
  ¬ occurs DOTDOT (sanitize_output output).
Proof.
  unfold sanitize_output, slice_to. intros H%occurs_take.
  by apply replace_dotdot_clean in H.
Qed.

(** C3: the sanitized stem has at most 100 characters, none of them one
    of the nine removed characters, holds no two adjacent dots, and is a
    fixed point of the sanitizer. *)
Theorem sanitize_output_spec (output : str) :
  (length (sanitize_output output) ≤ 100)%nat
  ∧ (∀ c, c ∈ PATH_CHARS → c ∉ sanitize_output output)
  ∧ ¬ occurs DOTDOT (sanitize_output output)
  ∧ sanitize_output (sanitize_output output) = sanitize_output output.
Proof.
  assert (Hlen : (length (sanitize_output output) ≤ 100)%nat).
  { unfold sanitize_output, slice_to. rewrite length_take. lia. }
  assert (Hch : ∀ c, c ∈ sanitize_output output → c ∉ PATH_CHARS)
    by apply sanitize_output_chars.
  assert (Hdd : ¬ occurs DOTDOT (sanitize_output output))
    by apply sanitize_output_no_dotdot.
  split; [done|]. split; [intros c Hc Hin; by apply (Hch c)|].
  split; [done|].
  set (out := sanitize_output output) in *.
  unfold sanitize_output. rewrite re_sub_class_id.
  - rewrite replace_id by done. unfold slice_to. by apply take_ge.
  - intros c Hc. unfold path_char, one_of. apply bool_decide_eq_false.
    by apply Hch.
Qed.

Lemma name_char_iff (c : N) :
  name_char c = true ↔
    97 ≤ c ≤ 122 ∨ 65 ≤ c ≤ 90 ∨ 48 ≤ c ≤ 57
    ∨ is_space c = true ∨ c ∈ NAME_MARKS.
Proof.
  unfold name_char, in_range, one_of.
  rewrite !orb_true_iff, !andb_true_iff, !N.leb_le, bool_decide_eq_true.
  tauto.
Qed.

Lemma sanitize_name_filter (name : str) :
  sanitize_name name = take 200 (filter (λ c, name_char c = true) name).
Proof.
  unfold sanitize_name, slice_to. rewrite re_sub_class_filter. f_equal.
  apply list_filter_iff. intros c. by destruct (name_char c).
Qed.

(** C8: the sanitized display name is the input with every character
    outside the allow-set dropped (nothing is escaped or replaced), cut to
    its first 200 characters.  The allow-set is: the letters a-z and A-Z,
    the digits 0-9, the whitespace characters, and the marks of
    NAME_MARKS.  The kept characters keep their order, and none of the
    shell characters survives. *)
Theorem sanitize_name_spec (name : str) :
  sanitize_name name = take 200 (filter (λ c, name_char c = true) name)
  ∧ (∀ c, name_char c = true ↔
            97 ≤ c ≤ 122 ∨ 65 ≤ c ≤ 90 ∨ 48 ≤ c ≤ 57
            ∨ is_space c = true ∨ c ∈ NAME_MARKS)
  ∧ sanitize_name name `sublist_of` name
  ∧ (length (sanitize_name name) ≤ 200)%nat
  ∧ (∀ c, c ∈ sanitize_name name → name_char c = true)
  ∧ (∀ c, c ∈ SHELL_CHARS → c ∉ sanitize_name name).
Proof.
  assert (Hin : ∀ c, c ∈ sanitize_name name → name_char c = true).
  { intros c. rewrite sanitize_name_filter. intros Hc.
    eapply elem_of_sublist in Hc; [|apply sublist_take].
    by apply list_elem_of_filter in Hc as [Hc _]. }
  split; [apply sanitize_name_filter|]. split; [apply name_char_iff|].
  split.
  { rewrite sanitize_name_filter.
    etrans; [apply sublist_take | apply sublist_filter]. }
  split; [rewrite sanitize_name_filter, length_take; lia|].
  split; [done|].
  intros c Hc Hout. apply Hin in Hout.
  assert (Hall : forallb (λ c, negb (name_char c)) SHELL_CHARS = true)
    by (vm_compute; reflexivity).
  rewrite forallb_forall in Hall. apply list_elem_of_In, Hall in Hc.
  by rewrite Hout in Hc.
Qed.

(** ** Validator *)

Lemma check_aliases_app (P : PolicyTables) (names : list alias) (errors : list str) :
  check_aliases P names errors = errors ++ check_aliases P names [].
Proof.
  unfold check_aliases. revert errors.
  induction names as [|a names IH]; intros errors; simpl.
  - by rewrite app_nil_r.
  - rewrite IH. rewrite (IH (if negb _ then _ else _)).
    destruct (negb _); simpl; by rewrite ?app_nil_r, <- ?app_assoc.
Qed.

Lemma check_module_app (P : PolicyTables) (module : option str) (errors : list str) :
  check_module P module errors = errors ++ check_module P module [].
Proof.
  destruct module as [[|c m]|]; simpl; try by rewrite app_nil_r.
  destruct (negb _); simpl; by rewrite ?app_nil_r.
Qed.

Lemma check_call_app (P : PolicyTables) (func : node) (errors : list str) :
  check_call P func errors = errors ++ check_call P func [].
Proof.
  destruct func; simpl; try (by rewrite app_nil_r);
    case_bool_decide; simpl; by rewrite ?app_nil_r.
Qed.

Lemma check_attribute_app (P : PolicyTables) (attr : str) (errors : list str) :
  check_attribute P attr errors = errors ++ check_attribute P attr [].
Proof.
  unfold check_attribute. case_bool_decide; simpl; by rewrite ?app_nil_r.
Qed.

(** The loop inside [visit] is [generic_visit]. *)
Lemma generic_visit_fix (P : PolicyTables) (children : list node) (errors : list str) :
  (fix generic_visit (children : list node) (errors : list str)
       {struct children} : list str :=
     match children with
     | [] => errors
     | c :: cs => generic_visit cs (visit P c errors)
     end) children errors
  = generic_visit P children errors.
Proof.
  unfold generic_visit. revert errors.
  induction children as [|c cs IH]; intros errors; simpl; [done|]. apply IH.
Qed.

Lemma visit_Call (P : PolicyTables) func args keywords errors :
  visit P (Call func args keywords) errors
  = generic_visit P keywords
      (generic_visit P args (visit P func (check_call P func errors))).
Proof. simpl. by rewrite !generic_visit_fix. Qed.

Lemma visit_Other (P : PolicyTables) children errors :
  visit P (Other children) errors = generic_visit P children errors.
Proof. simpl. by rewrite generic_visit_fix. Qed.

Lemma generic_visit_collects (P : PolicyTables) (children : list node) :
  Forall (λ c, ∀ errors,
            visit P c errors
            = errors ++ flat_map (findings P) (subnodes c)) children →
  ∀ errors,
    generic_visit P children errors
    = errors ++ flat_map (findings P) (flat_map subnodes children).
Proof.
  unfold generic_visit. induction 1 as [|c cs Hc _ IH]; intros errors; simpl.
  - by rewrite app_nil_r.
  - rewrite IH, Hc, flat_map_app. by rewrite <- app_assoc.
Qed.

(** The traversal appends, to the errors it was given, the findings of
    every node of the tree in visiting order. *)
Lemma visit_collects (P : PolicyTables) (n : node) :
  ∀ errors, visit P n errors = errors ++ flat_map (findings P) (subnodes n).
Proof.
  induction n as [names|module names level|func args keywords IHf IHa IHk
                 |value attr IHv|id|children IH] using node_induction;
    intros errors.
  - simpl. rewrite app_nil_r. apply check_aliases_app.
  - simpl. rewrite app_nil_r. apply check_module_app.
  - rewrite visit_Call.
    rewrite (generic_visit_collects P keywords IHk).
    rewrite (generic_visit_collects P args IHa).
    rewrite IHf, check_call_app. simpl.
    rewrite !flat_map_app. by rewrite <- !app_assoc.
  - simpl. rewrite IHv, check_attribute_app. by rewrite <- app_assoc.
  - simpl. by rewrite app_nil_r.
  - rewrite visit_Other. simpl.
    by rewrite (generic_visit_collects P children IH).
Qed.

Lemma validate_parsed (parse : str → parse_result) (P : PolicyTables)
    (code : str) (tree : node) :
  parse code = Parsed tree →
  validate parse P code = Returned (flat_map (findings P) (subnodes tree)).
Proof. unfold validate. intros ->. by rewrite visit_collects. Qed.

Lemma validate_syntax_error (parse : str → parse_result) (P : PolicyTables)
    (code e : str) :
  parse code = SyntaxError e →
  validate parse P code = Returned [syntax_error_msg e].
Proof. unfold validate. by intros ->. Qed.

Lemma validate_code_parsed (parse : str → parse_result) (P : PolicyTables)
    (code : str) (tree : node) :
  parse code = Parsed tree →
  validate_code parse P code
  = Returned (bool_decide (flat_map (findings P) (subnodes tree) = []),
              flat_map (findings P) (subnodes tree)).
Proof.
  intros Ht. unfold validate_code. rewrite (validate_parsed _ _ _ _ Ht). simpl.
  by destruct (flat_map (findings P) (subnodes tree)).
Qed.

(** What [validate_code] returns, when it returns: the flag tells whether
    the list is empty. *)
Lemma validate_code_returned (parse : str → parse_result) (P : PolicyTables)
    (code : str) (is_valid : bool) (errors : list str) :
  validate_code parse P code = Returned (is_valid, errors) →
  is_valid = bool_decide (errors = []).
Proof.
  unfold validate_code. destruct (validate parse P code) as [errs|e]; [|done].
  simpl. intros [= <- <-]. by destruct errs.
Qed.

(** The four kinds of message start differently. *)
Lemma import_not_builtin (m f : str) : blocked_import_msg m ≠ blocked_builtin_msg f.
Proof. intros H. vm_compute in H. discriminate H. Qed.

Lemma import_not_attribute (m a : str) : blocked_import_msg m ≠ blocked_attribute_msg a.
Proof. intros H. vm_compute in H. discriminate H. Qed.

Lemma builtin_not_attribute (f a : str) : blocked_builtin_msg f ≠ blocked_attribute_msg a.
Proof. intros H. vm_compute in H. discriminate H. Qed.

Lemma syntax_not_import (e m : str) : syntax_error_msg e ≠ blocked_import_msg m.
Proof. intros H. vm_compute in H. discriminate H. Qed.

Lemma syntax_not_builtin (e f : str) : syntax_error_msg e ≠ blocked_builtin_msg f.
Proof. intros H. vm_compute in H. discriminate H. Qed.

Lemma syntax_not_attribute (e a : str) : syntax_error_msg e ≠ blocked_attribute_msg a.
Proof. intros H. vm_compute in H. discriminate H. Qed.

Lemma check_aliases_kind (P : PolicyTables) (names : list alias) (v : str) :
  v ∈ check_aliases P names [] → is_import_violation v.
Proof.
  induction names as [|a names IH] using rev_ind; [by intros ?%elem_of_nil|].
  unfold check_aliases in *. rewrite foldl_app. simpl.
  destruct (negb _); [|done].
  intros [H|H%list_elem_of_singleton]%elem_of_app; [by apply IH|].
  by exists (alias_name a).
Qed.

Lemma findings_kind (P : PolicyTables) (n : node) (v : str) :
  v ∈ findings P n →
  is_import_violation v ∨ is_builtin_violation v ∨ is_attribute_violation v.
Proof.
  destruct n as [names|module names level|func args keywords|value attr|id|children];
    simpl; try by intros ?%elem_of_nil.
  - intros H. left. by eapply check_aliases_kind.
  - destruct module as [[|c m]|]; simpl; try by intros ?%elem_of_nil.
    destruct (negb _); [|by intros ?%elem_of_nil].
    intros ->%list_elem_of_singleton. left. by eexists.
  - destruct func; simpl; try (by intros ?%elem_of_nil);
      (case_bool_decide; [|by intros ?%elem_of_nil]);
      intros ->%list_elem_of_singleton; right; left; by eexists.
  - unfold check_attribute. case_bool_decide; [|by intros ?%elem_of_nil].
    intros ->%list_elem_of_singleton. right; right. by eexists.
Qed.

(** What the visitor methods report is what [violations_of] lists. *)
Lemma findings_violations (P : PolicyTables) (n : node) :
  findings P n = violations_of P n.
Proof.
  destruct n as [names|module names level|func args keywords|value attr|id|children];
    cbn [findings violations_of]; try reflexivity.
  - rewrite check_aliases_filter. reflexivity.
  - destruct module as [[|c m]|]; cbn [check_module]; try reflexivity.
    destruct (_is_allowed_import P (c :: m)) eqn:Ha; cbn [negb].
    + rewrite bool_decide_eq_false_2; [reflexivity | by intros [_ ?]].
    + rewrite bool_decide_eq_true_2; [reflexivity | done].
Qed.

Lemma flat_map_ext_eq {A B} (f g : A → list B) (l : list A) :
  (∀ x, f x = g x) → flat_map f l = flat_map g l.
Proof. intros H. induction l as [|a l IH]; simpl; [done|]. by rewrite H, IH. Qed.

(** C7, counterexample: source that [ast.parse] cannot even encode makes
    it raise an exception that is no [SyntaxError]; [validate] does not
    catch it, so no result -- and no syntax violation -- comes back. *)
Lemma validate_code_raises :
  sample_parse surrogate_code
  = ParseRaises (ValueError (pystr "'utf-8' codec can't encode character"))
  ∧ validate_code sample_parse SECURITY_CONFIGURATION surrogate_code
    = Raised (ValueError (pystr "'utf-8' codec can't encode character")).
Proof. split; reflexivity. Qed.

(** C7, amended: when [ast.parse] raises [SyntaxError] the result is
    invalid with exactly one violation, the text [Syntax error: ] and the
    error, whatever the policy tables hold, and this is no import, builtin
    or attribute message.  When parsing succeeds the result lists the
    violations of every node of the tree, in visiting order, and the code
    is valid exactly when no node has one.  When [ast.parse] raises any
    other exception there is no result: the exception leaves
    [validate_code]. *)
Theorem validate_code_spec (parse : str → parse_result) (code : str) :
  (∀ e, parse code = SyntaxError e →
     ∀ P, validate_code parse P code
          = Returned (false, [pystr "Syntax error: " ++ e])
          ∧ (∀ m, pystr "Syntax error: " ++ e
                  ≠ pystr "Blocked import: '" ++ m ++ pystr "'")
          ∧ (∀ f, pystr "Syntax error: " ++ e
                  ≠ pystr "Blocked builtin call: '" ++ f ++ pystr "()'")
          ∧ (∀ a, pystr "Syntax error: " ++ e
                  ≠ pystr "Blocked attribute access: '" ++ a ++ pystr "'"))
  ∧ (∀ tree, parse code = Parsed tree →
     ∀ P, validate_code parse P code
          = Returned (bool_decide (flat_map (violations_of P) (subnodes tree) = []),
                      flat_map (violations_of P) (subnodes tree))
          ∧ (∀ n v, n ∈ subnodes tree → v ∈ violations_of P n →
                    v ∈ flat_map (violations_of P) (subnodes tree))
          ∧ (flat_map (violations_of P) (subnodes tree) = []
             ↔ ∀ n, n ∈ subnodes tree → violations_of P n = []))
  ∧ (∀ e, parse code = ParseRaises e →
     ∀ P, validate_code parse P code = Raised e).
Proof.
  split; [|split].
  3:{ intros e He P. unfold validate_code, validate. by rewrite He. }
  - intros e He P. unfold validate_code.
    rewrite (validate_syntax_error _ _ _ _ He). simpl.
    split; [done|]. split; [|split].
    + intros m. apply (syntax_not_import e m).
    + intros f. apply (syntax_not_builtin e f).
    + intros a. apply (syntax_not_attribute e a).
  - intros tree Ht P. rewrite (validate_code_parsed _ _ _ _ Ht).
    rewrite (flat_map_ext_eq _ _ _ (findings_violations P)).
    split; [done|]. split.
    + intros n v Hn Hv. apply list_elem_of_In, in_flat_map.
      exists n. by rewrite <- !list_elem_of_In.
    + split.
      * intros H n Hn. destruct (violations_of P n) as [|v vs] eqn:Hf; [done|].
        assert (Hv : v ∈ flat_map (violations_of P) (subnodes tree)).
        { apply list_elem_of_In, in_flat_map. exists n.
          rewrite <- !list_elem_of_In, Hf. split; [done | left]. }
        rewrite H in Hv. by apply elem_of_nil in Hv.
      * intros H. induction (subnodes tree) as [|n ns IH]; [done|]. simpl.
        rewrite (H n) by left. simpl. apply IH. intros n' Hn'. apply H. by right.
Qed.

Lemma validate_code_spec_witness :
  validate_code sample_parse SECURITY_CONFIGURATION (pystr "def (")
  = Returned (false,
              [pystr "Syntax error: " ++ pystr "invalid syntax (<unknown>, line 1)"])
  ∧ validate_code sample_parse SECURITY_CONFIGURATION (pystr "import os")
    = Returned (false, [pystr "Blocked import: 'os'"]).
Proof.
  split.
  - destruct (validate_code_spec sample_parse (pystr "def (")) as [H _].
    apply (H (pystr "invalid syntax (<unknown>, line 1)")). reflexivity.
  - destruct (validate_code_spec sample_parse (pystr "import os")) as (_ & H & _).
    destruct (H (Other [Import [{| alias_name := pystr "os"; alias_asname := None |}]])
                eq_refl SECURITY_CONFIGURATION) as [-> _].
    vm_compute. reflexivity.
Defined.

(** C9: visiting a from-import without a module records nothing, for any
    policy; hence code whose imports are all relative is validated without
    any import violation, whatever the allow-set and the deny-set hold. *)
Theorem relative_import_unchecked :
  (∀ P names level errors,
      visit P (ImportFrom None names level) errors = errors)
  ∧ (∀ (parse : str → parse_result) P code tree,
        parse code = Parsed tree →
        relative_imports_only tree = true →
        ∃ is_valid errors,
          validate_code parse P code = Returned (is_valid, errors)
          ∧ ∀ v, v ∈ errors → ¬ is_import_violation v).
Proof.
  split; [done|].
  intros parse P code tree Ht Hrel.
  rewrite (validate_code_parsed _ _ _ _ Ht). do 2 eexists. split; [done|].
  intros v Hv [m ->].
  apply list_elem_of_In, in_flat_map in Hv as (n & Hn & Hv).
  unfold relative_imports_only in Hrel. rewrite forallb_forall in Hrel.
  specialize (Hrel n Hn). apply list_elem_of_In in Hv.
  destruct n as [names|[module|] names level|func args keywords|value attr|id|children];
    simpl in Hv; try done; try by apply elem_of_nil in Hv.
  - destruct func; simpl in Hv; try (by apply elem_of_nil in Hv);
      (case_bool_decide; [|by apply elem_of_nil in Hv]);
      apply list_elem_of_singleton in Hv; by apply import_not_builtin in Hv.
  - unfold check_attribute in Hv. case_bool_decide; [|by apply elem_of_nil in Hv].
    apply list_elem_of_singleton in Hv. by apply import_not_attribute in Hv.
Qed.

Lemma relative_import_unchecked_witness :
  visit pkg_policy
    (ImportFrom None [{| alias_name := pystr "x"; alias_asname := None |}] 1) []
  = []
  ∧ ∃ is_valid errors,
      validate_code sample_parse pkg_policy (pystr "from . import x")
      = Returned (is_valid, errors)
      ∧ ∀ v, v ∈ errors → ¬ is_import_violation v.
Proof.
  destruct relative_import_unchecked as [H1 H2]. split; [apply H1|].
  apply (H2 sample_parse pkg_policy (pystr "from . import x")
           (Other [ImportFrom None
                     [{| alias_name := pystr "x"; alias_asname := None |}] 1])
           eq_refl eq_refl).
Defined.

(** ** Executor *)

Lemma join_lines (sep : str) (items : list str) :
  items ≠ [] → sep ++ join sep items = mjoin ((λ i, sep ++ i) <$> items).
Proof.
  induction items as [|x items IH]; [done|]. intros _.
  destruct items as [|y items].
  - simpl. by rewrite app_nil_r.
  - change (join sep (x :: y :: items)) with (x ++ sep ++ join sep (y :: items)).
    rewrite IH by done. simpl. by rewrite <- !app_assoc.
Qed.

Lemma validation_failed_msg_lines (errors : list str) :
  errors ≠ [] →
  validation_failed_msg errors
  = pystr "Code validation failed:"
    ++ mjoin ((λ e, [NEWLINE] ++ pystr "  - " ++ e) <$> errors).
Proof.
  intros H. unfold validation_failed_msg. f_equal.
  rewrite join_lines by (by destruct errors).
  f_equal. by rewrite <- list_fmap_compose.
Qed.

(** The three ways validation can go. *)
Lemma validate_code_cases (parse : str → parse_result) (P : PolicyTables)
    (code : str) :
  validate_code parse P code = Returned (true, [])
  ∨ (∃ errors, errors ≠ []
               ∧ validate_code parse P code = Returned (false, errors))
  ∨ (∃ e, validate_code parse P code = Raised e).
Proof.
  destruct (validate_code parse P code) as [[is_valid errors]|e] eqn:Hv;
    [|right; right; by eexists].
  apply validate_code_returned in Hv as ->.
  destruct errors as [|v errors]; [by left|].
  right; left. by exists (v :: errors).
Qed.

Lemma execute_invalid (parse : str → parse_result) (P : PolicyTables)
    (h : Host) (code : str) (timeout : Z) (w : world) (errors : list str) :
  validate_code parse P code = Returned (false, errors) →
  execute_diagram_code parse P h code timeout w
  = (Returned (false, validation_failed_msg errors), w).
Proof. unfold execute_diagram_code. by intros ->. Qed.

Lemma execute_raises (parse : str → parse_result) (P : PolicyTables)
    (h : Host) (code : str) (timeout : Z) (w : world) (e : exn) :
  validate_code parse P code = Raised e →
  execute_diagram_code parse P h code timeout w = (Raised e, w).
Proof. unfold execute_diagram_code. by intros ->. Qed.

(** The run of valid code, step by step. *)
Lemma execute_valid (parse : str → parse_result) (P : PolicyTables)
    (h : Host) (code : str) (timeout : Z) :
  validate_code parse P code = Returned (true, []) →
  execute_diagram_code parse P h code timeout
  = (temp_path ←@ write_temp_file h code;
     try_finally
       (try_except
          (result ←@ subprocess_run h [executable h; temp_path] (minimal_env h)
                      (host_cwd h) timeout;
           if (returncode result =? 0)%Z then ret (true, stdout result)
           else ret (false, execution_error_msg (stderr result)))
          (fun e =>
             match e with
             | TimeoutExpired _ => ret (false, timed_out_msg timeout)
             | _ => ret (false, execution_failed_msg e)
             end))
       (try_except (unlink h temp_path) (fun _ => ret tt))).
Proof. unfold execute_diagram_code. by intros ->. Qed.

(** Runs the monadic steps of the executor as far as they are known. *)
Ltac run_step :=
  cbv beta iota zeta delta
    [bind try_finally try_except subprocess_run child_runs log unlink ret raise
     fst snd tmpfiles trace returncode stdout stderr].

(** Unfolds a run of valid code whose temporary file was written. *)
Ltac run_valid Htf := unfold write_temp_file; rewrite ?Htf; run_step.

(** Splits on whether the temporary file is still there and on whether
    its removal works. *)
Ltac split_files h :=
  repeat match goal with
         | |- context [match ?m !! temp_name h with _ => _ end] =>
             let Hf := fresh "Hf" in destruct (m !! temp_name h) eqn:Hf
         end;
  try (let Hu := fresh "Hu" in destruct (unlink_error h) eqn:Hu);
  run_step.

(** C1: when validation finds a violation the executor returns failure
    with the header line followed by one line per violation and leaves
    the world as it was: no temporary file is written and no process is
    spawned.  Hence a successful result implies that validation of this
    very code found it valid, with no violation.  When validation raises,
    the executor raises the same exception, and the world is as it was. *)
Theorem execute_revalidates (parse : str → parse_result) (P : PolicyTables)
    (h : Host) (code : str) (timeout : Z) (w : world) :
  (∀ is_valid errors,
     validate_code parse P code = Returned (is_valid, errors) →
     errors ≠ [] →
     let run := execute_diagram_code parse P h code timeout w in
     fst run = Returned (false, validation_failed_msg errors)
     ∧ validation_failed_msg errors
       = pystr "Code validation failed:"
         ++ mjoin ((λ e, [NEWLINE] ++ pystr "  - " ++ e) <$> errors)
     ∧ snd run = w
     ∧ tmpfiles (snd run) = tmpfiles w
     ∧ spawn_count (snd run) = spawn_count w)
  ∧ (∀ out,
       fst (execute_diagram_code parse P h code timeout w) = Returned (true, out) →
       validate_code parse P code = Returned (true, []))
  ∧ (∀ e,
       validate_code parse P code = Raised e →
       execute_diagram_code parse P h code timeout w = (Raised e, w)).
Proof.
  split; [|split].
  - intros is_valid errors Hv Hne.
    pose proof (validate_code_returned _ _ _ _ _ Hv) as ->.
    rewrite bool_decide_eq_false_2 in Hv by done.
    simpl. rewrite (execute_invalid _ _ _ _ _ _ _ Hv). simpl.
    split; [done|]. split; [by apply validation_failed_msg_lines | done].
  - intros out Hrun.
    destruct (validate_code_cases parse P code) as [Hv|[(errors & _ & Hv)|[e Hv]]].
    + done.
    + rewrite (execute_invalid _ _ _ _ _ _ _ Hv) in Hrun. by inversion Hrun.
    + rewrite (execute_raises _ _ _ _ _ _ _ Hv) in Hrun. by inversion Hrun.
  - intros e Hv. by apply execute_raises.
Qed.

Lemma execute_revalidates_witness :
  fst (execute_diagram_code sample_parse SECURITY_CONFIGURATION
         (sample_host (Exits 0 (pystr "done") []) None)
         (pystr "import os") 60 empty_world)
  = Returned (false, validation_failed_msg [blocked_import_msg (pystr "os")])
  ∧ validate_code sample_parse SECURITY_CONFIGURATION (pystr "import numpy")
    = Returned (true, [])
  ∧ execute_diagram_code sample_parse SECURITY_CONFIGURATION
      (sample_host (Exits 0 (pystr "done") []) None)
      surrogate_code 60 empty_world
    = (Raised (ValueError (pystr "'utf-8' codec can't encode character")),
       empty_world).
Proof.
  split; [|split].
  - destruct (execute_revalidates sample_parse SECURITY_CONFIGURATION
                (sample_host (Exits 0 (pystr "done") []) None)
                (pystr "import os") 60 empty_world) as [H _].
    apply (H false [blocked_import_msg (pystr "os")]);
      [vm_compute; reflexivity | discriminate].
  - destruct (execute_revalidates sample_parse SECURITY_CONFIGURATION
                (sample_host (Exits 0 (pystr "done") []) None)
                (pystr "import numpy") 60 empty_world) as (_ & H & _).
    apply (H (pystr "done")). vm_compute. reflexivity.
  - destruct (execute_revalidates sample_parse SECURITY_CONFIGURATION
                (sample_host (Exits 0 (pystr "done") []) None)
                surrogate_code 60 empty_world) as (_ & _ & H).
    apply H. reflexivity.
Defined.

Lemma timed_out_not_error (timeout : Z) (err : str) :
  timed_out_msg timeout ≠ execution_error_msg err.
Proof.
  intros H. apply (f_equal (λ s, s !! 10%nat)) in H.
  vm_compute in H. discriminate H.
Qed.

(** C5, counterexample: valid code whose child exits with status zero
    after writing a byte that is no UTF-8 text.  [subprocess.run] decodes
    the captured output and raises, so the result is failure, not success
    with the output. *)
Lemma execute_exit_zero_fails :
  validate_code sample_parse SECURITY_CONFIGURATION (pystr "print('\udcff')")
  = Returned (true, [])
  ∧ fst (execute_diagram_code sample_parse SECURITY_CONFIGURATION
           (sample_host
              (RunFails 0
                 (ValueError
                    (pystr "'utf-8' codec can't decode byte 0xff in position 0: invalid start byte")))
              None)
           (pystr "print('\udcff')") 60 empty_world)
    = Returned (false,
                pystr "Execution failed: 'utf-8' codec can't decode byte 0xff in position 0: invalid start byte").
Proof. split; vm_compute; reflexivity. Qed.

(** C5, amended: for valid code whose temporary file was written.  When
    [subprocess.run] hands back a child that exited with status zero the
    result is success with its standard output; with another status it is
    failure with [Execution error:], a line break and its standard error.
    A child still running at the timeout is killed and gives failure with
    [Execution timed out after N seconds], a text that differs from every
    execution-error text.  When [subprocess.run] raises anything else --
    the child cannot be started, or its output cannot be collected, even
    after exit status zero -- the result is failure with
    [Execution failed: ] and the text of the exception. *)
Theorem execute_outcomes (parse : str → parse_result) (P : PolicyTables)
    (h : Host) (code : str) (timeout : Z) (w : world) :
  validate_code parse P code = Returned (true, []) →
  temp_failure h = None →
  let run := execute_diagram_code parse P h code timeout w in
  let outcome := child h [executable h; temp_name h] timeout in
  (∀ out err, outcome = Exits 0 out err → fst run = Returned (true, out))
  ∧ (∀ rc out err, rc ≠ 0%Z → outcome = Exits rc out err →
       fst run
       = Returned (false, pystr "Execution error:" ++ [NEWLINE] ++ err))
  ∧ (outcome = Hangs →
       fst run
       = Returned (false,
                   pystr "Execution timed out after " ++ str_of_Z timeout
                   ++ pystr " seconds")
       ∧ Killed ∈ trace (snd run)
       ∧ ∀ err,
           pystr "Execution timed out after " ++ str_of_Z timeout
           ++ pystr " seconds"
           ≠ pystr "Execution error:" ++ [NEWLINE] ++ err)
  ∧ (∀ e, (outcome = SpawnFails e ∨ ∃ rc, outcome = RunFails rc e) →
          (∀ text, e ≠ TimeoutExpired text) →
          fst run = Returned (false, pystr "Execution failed: " ++ exn_str e)).
Proof.
  intros Hv Htf. cbv zeta. rewrite (execute_valid _ _ _ _ _ Hv).
  run_valid Htf.
  split; [|split; [|split]].
  - intros out err Hc. rewrite Hc. run_step. cbn [Z.eqb].
    split_files h; reflexivity.
  - intros rc out err Hrc Hc. rewrite Hc. run_step.
    apply Z.eqb_neq in Hrc. rewrite Hrc.
    split_files h; reflexivity.
  - intros Hc. rewrite Hc. run_step.
    split; [|split].
    + split_files h; reflexivity.
    + split_files h; rewrite ?elem_of_app, ?list_elem_of_singleton; tauto.
    + intros err. apply timed_out_not_error.
  - intros e Hc He.
    destruct Hc as [Hc|[rc Hc]]; rewrite Hc; run_step;
      (destruct e as [t|t|t|t]; [| | |by destruct (He t)]);
      split_files h; reflexivity.
Qed.

Lemma execute_outcomes_witness :
  fst (execute_diagram_code sample_parse SECURITY_CONFIGURATION
         (sample_host (Exits 1 [] (pystr "boom")) None)
         (pystr "import numpy") 60 empty_world)
  = Returned (false, pystr "Execution error:" ++ [NEWLINE] ++ pystr "boom")
  ∧ fst (execute_diagram_code sample_parse SECURITY_CONFIGURATION
           (sample_host Hangs None) (pystr "import numpy") 60 empty_world)
    = Returned (false, pystr "Execution timed out after 60 seconds").
Proof.
  split.
  - destruct (execute_outcomes sample_parse SECURITY_CONFIGURATION
                (sample_host (Exits 1 [] (pystr "boom")) None)
                (pystr "import numpy") 60 empty_world) as (_ & H & _);
      [vm_compute; reflexivity | reflexivity |].
    apply (H 1%Z [] (pystr "boom")); [discriminate | reflexivity].
  - destruct (execute_outcomes sample_parse SECURITY_CONFIGURATION
                (sample_host Hangs None)
                (pystr "import numpy") 60 empty_world) as (_ & _ & H & _);
      [vm_compute; reflexivity | reflexivity |].
    destruct (H eq_refl) as [-> _]. vm_compute. reflexivity.
Defined.




(** ** Output path confinement *)

Lemma relative_to_prefix (self other : path) :
  (∃ rest, relative_to self other = Returned rest) ↔ other `prefix_of` self.
Proof.
  unfold relative_to. case_bool_decide; split; try done.
  - intros _. by eexists.
  - by intros [? ?].
Qed.

(** The loop returns early exactly when some allowed directory resolves
    to a leading part of the path. *)
Lemma check_allowed_dirs_spec (pf : Platform) (p : path) (dirs : list str) :
  (∀ d, d ∈ dirs → ∃ r, resolve pf (expanduser pf d) = Returned r) →
  ∃ found : bool,
    check_allowed_dirs pf p dirs = Returned found
    ∧ (found = true ↔
         ∃ d r, d ∈ dirs ∧ resolve pf (expanduser pf d) = Returned r
                ∧ r `prefix_of` p).
Proof.
  induction dirs as [|d dirs IH]; intros Hres; simpl.
  - exists false. split; [done|]. split; [done|].
    by intros (d & r & ?%elem_of_nil & _).
  - destruct (Hres d) as [r Hr]; [left|]. rewrite Hr. simpl.
    unfold relative_to. case_bool_decide as Hpre.
    + exists true. split; [done|]. split; [|done]. intros _.
      exists d, r. split; [left | done].
    + destruct IH as (found & -> & Hfound).
      { intros d' Hd'. apply Hres. by right. }
      exists found. split; [done|]. rewrite Hfound. split.
      * intros (d' & r' & Hd' & Hr' & Hp'). exists d', r'. split; [by right | done].
      * intros (d' & r' & Hd' & Hr' & Hp').
        apply elem_of_cons in Hd' as [->|Hd'].
        -- rewrite Hr in Hr'. inversion Hr'. by subst.
        -- by exists d', r'.
Qed.

Lemma allowed_output_dirs_listed :
  elements (ALLOWED_OUTPUT_DIRS SECURITY_CONFIGURATION)
  ≡ₚ pystr <$> ["."; "/mnt/user-data/outputs"; "/tmp"; "~/outputs"]%string.
Proof.
  apply elements_list_to_set. apply (bool_decide_unpack _). vm_compute. reflexivity.
Qed.

Lemma validate_output_path_confined (pf : Platform) (P : PolicyTables)
    (output_path : str) (p : path) :
  resolve pf output_path = Returned p →
  (∀ d, d ∈ ALLOWED_OUTPUT_DIRS P →
        ∃ r, resolve pf (expanduser pf d) = Returned r) →
  (validate_output_path pf P output_path = Returned (true, None)
   ↔ confined pf P p)
  ∧ (¬ confined pf P p →
     validate_output_path pf P output_path
     = Returned (false,
                 Some (not_allowed_msg (elements (ALLOWED_OUTPUT_DIRS P))))).
Proof.
  intros Hp Hres. unfold validate_output_path, confined. rewrite Hp. simpl.
  destruct (check_allowed_dirs_spec pf p (elements (ALLOWED_OUTPUT_DIRS P)))
    as (found & -> & Hfound).
  { intros d Hd. apply Hres. by apply elem_of_elements. }
  simpl. setoid_rewrite elem_of_elements in Hfound. split.
  - destruct found.
    + split; [|done]. intros _. right. by apply Hfound.
    + unfold relative_to. case_bool_decide as Hcwd.
      * split; [|done]. intros _. by left.
      * split; [done|]. intros [?|H]; [done|]. by apply Hfound in H.
  - intros Hnot. destruct found.
    + exfalso. apply Hnot. right. by apply Hfound.
    + unfold relative_to. case_bool_decide as Hcwd; [|done].
      exfalso. apply Hnot. by left.
Qed.

(** When an allowed directory cannot be resolved the loop never runs to
    its end: it returns early or raises. *)
Lemma check_allowed_dirs_raises (pf : Platform) (p : path) (dirs : list str) :
  (∃ d e, d ∈ dirs ∧ resolve pf (expanduser pf d) = Raised e) →
  check_allowed_dirs pf p dirs = Returned true
  ∨ ∃ e, check_allowed_dirs pf p dirs = Raised e.
Proof.
  induction dirs as [|d0 dirs IH]; intros (d & e & Hd & He).
  - by apply elem_of_nil in Hd.
  - simpl. destruct (resolve pf (expanduser pf d0)) as [r|e0] eqn:Hr; simpl;
      [|right; by eexists].
    unfold relative_to. case_bool_decide; [by left|].
    apply IH. apply elem_of_cons in Hd as [->|Hd]; [congruence|].
    by exists d, e.
Qed.

(** C4, counterexample: a path string for which the check answers
    neither allowed nor denied but raises: a name with a NUL character,
    which [Path.resolve] refuses with [ValueError]. *)
Lemma validate_output_path_raises :
  validate_output_path (posix plain_fs) SECURITY_CONFIGURATION
    (pystr "a" ++ [NUL] ++ pystr "b")
  = Raised (ValueError (pystr "embedded null byte")).
Proof. vm_compute. reflexivity. Qed.

(** C4, amended: when the path cannot be resolved the check raises the
    exception of the resolution.  For a path that resolves to [p], with
    allowed directories that resolve, the check answers allowed exactly
    when [p] is the working directory, an allowed directory, or below one
    of them; otherwise it answers denied with the message that lists the
    allowed directories.  When some allowed directory cannot be resolved
    the check never answers denied: it answers allowed or raises.  The
    allowed directories of the script are the four of its table. *)
Theorem validate_output_path_spec (pf : Platform) (P : PolicyTables)
    (output_path : str) :
  (∀ e, resolve pf output_path = Raised e →
        validate_output_path pf P output_path = Raised e)
  ∧ (∀ p,
       resolve pf output_path = Returned p →
       (∀ d, d ∈ ALLOWED_OUTPUT_DIRS P →
             ∃ r, resolve pf (expanduser pf d) = Returned r) →
       (validate_output_path pf P output_path = Returned (true, None)
        ↔ confined pf P p)
       ∧ (¬ confined pf P p →
          validate_output_path pf P output_path
          = Returned (false,
                      Some (pystr "Output path not allowed. Allowed directories: "
                            ++ join (pystr ", ")
                                 (elements (ALLOWED_OUTPUT_DIRS P))))))
  ∧ (∀ p d e,
       resolve pf output_path = Returned p →
       d ∈ ALLOWED_OUTPUT_DIRS P →
       resolve pf (expanduser pf d) = Raised e →
       validate_output_path pf P output_path = Returned (true, None)
       ∨ ∃ e', validate_output_path pf P output_path = Raised e')
  ∧ elements (ALLOWED_OUTPUT_DIRS SECURITY_CONFIGURATION)
    ≡ₚ pystr <$> ["."; "/mnt/user-data/outputs"; "/tmp"; "~/outputs"]%string.
Proof.
  split; [|split; [|split]].
  - intros e He. unfold validate_output_path. by rewrite He.
  - intros p Hp Hres.
    destruct (validate_output_path_confined pf P output_path p Hp Hres)
      as [Hiff Hno].
    split; [exact Hiff | exact Hno].
  - intros p d e Hp Hd He. unfold validate_output_path. rewrite Hp. simpl.
    destruct (check_allowed_dirs_raises pf p (elements (ALLOWED_OUTPUT_DIRS P)))
      as [->|[e' ->]].
    + exists d, e. split; [by apply elem_of_elements | done].
    + by left.
    + right. by eexists.
  - apply allowed_output_dirs_listed.
Qed.

Lemma plain_fs_dirs_resolve (d : str) :
  d ∈ ALLOWED_OUTPUT_DIRS SECURITY_CONFIGURATION →
  ∃ r, resolve (posix plain_fs) (expanduser (posix plain_fs) d) = Returned r.
Proof.
  intros Hd. apply elem_of_elements in Hd.
  rewrite allowed_output_dirs_listed in Hd.
  repeat (apply elem_of_cons in Hd as [->|Hd]);
    [eexists; vm_compute; reflexivity ..|by apply elem_of_nil in Hd].
Qed.

Lemma validate_output_path_spec_witness :
  validate_output_path (posix plain_fs) SECURITY_CONFIGURATION
    (pystr "/tmp/x/../y") = Returned (true, None).
Proof.
  destruct (validate_output_path_spec (posix plain_fs) SECURITY_CONFIGURATION
              (pystr "/tmp/x/../y")) as (_ & H & _).
  apply (H [pystr "tmp"; pystr "y"]).
  - vm_compute. reflexivity.
  - exact plain_fs_dirs_resolve.
  - right. exists (pystr "/tmp"), [pystr "tmp"]. split; [|split].
    + apply (bool_decide_unpack _). vm_compute. reflexivity.
    + vm_compute. reflexivity.
    + by exists [pystr "y"].
Defined.

(** *** Sanitized stems on a POSIX file system *)

Lemma joinrealpath_nil (links : gmap path str) (fuel : nat) (cur : path) :
  joinrealpath links fuel cur [] = Returned cur.
Proof. by destruct fuel. Qed.

Lemma joinrealpath_skip (links : gmap path str) (fuel : nat) (cur : path)
    (name : str) (rest : list str) :
  name = [] ∨ name = [DOT] →
  joinrealpath links fuel cur (name :: rest) = joinrealpath links fuel cur rest.
Proof.
  intros H. destruct fuel; simpl; by rewrite (bool_decide_eq_true_2 _ H).
Qed.

Lemma joinrealpath_plain (links : gmap path str) (fuel : nat) (cur : path)
    (name : str) (rest : list str) :
  name ≠ [] → name ≠ [DOT] → name ≠ DOTDOT →
  links !! (cur ++ [name]) = None →
  joinrealpath links fuel cur (name :: rest)
  = joinrealpath links fuel (cur ++ [name]) rest.
Proof.
  intros H1 H2 H3 Hl.
  assert (H12 : ¬ (name = [] ∨ name = [DOT])) by tauto.
  destruct fuel; simpl;
    by rewrite (bool_decide_eq_false_2 _ H12), (bool_decide_eq_false_2 _ H3), Hl.
Qed.

(** Walking [a ++ b] is walking [a] and then [b] from where that ended. *)
Lemma joinrealpath_app (links : gmap path str) (fuel : nat)
    (a b : list str) (cur : path) :
  joinrealpath links fuel cur (a ++ b)
  = (p ←! joinrealpath links fuel cur a; joinrealpath links fuel p b).
Proof.
  revert cur. induction a as [|name a IH]; intros cur.
  - by rewrite joinrealpath_nil.
  - destruct fuel as [|fuel]; simpl in *.
    + case_bool_decide; [apply IH|]. case_bool_decide; [apply IH|].
      destruct (links !! (cur ++ [name])); [done | apply IH].
    + case_bool_decide; [apply IH|]. case_bool_decide; [apply IH|].
      destruct (links !! (cur ++ [name])); [|apply IH].
      destruct (joinrealpath links fuel _ _); [apply IH | done].
Qed.

Lemma split_no_sep (sep : N) (s : str) : sep ∉ s → split sep s = [s].
Proof.
  induction s as [|c s IH]; [done|]. intros H.
  apply not_elem_of_cons in H as [Hc Hs]. simpl.
  destruct (N.eqb_spec c sep); [congruence|]. by rewrite IH.
Qed.

Lemma sanitize_output_no_nul (raw : str) : NUL ∉ raw → NUL ∉ sanitize_output raw.
Proof.
  intros H Hin. apply H.
  eapply elem_of_sublist; [done|].
  etrans; [apply sanitize_output_sublist | apply sublist_filter].
Qed.

(** A stem without slash, without two adjacent dots and without NUL
    resolves to the resolved working directory or to that one part below
    it, unless it names a symbolic link there. *)
Lemma posix_resolve_stem (fs : filesystem) (stem : str) (c : path) :
  NUL ∉ stem → SLASH ∉ stem → stem ≠ DOTDOT →
  posix_resolve fs (pystr ".") = Returned c →
  fs_links fs !! (c ++ [stem]) = None →
  ∃ p, posix_resolve fs stem = Returned p ∧ c `prefix_of` p.
Proof.
  intros Hnul Hslash Hdd Hdot Hlink.
  unfold posix_resolve in *.
  rewrite bool_decide_eq_false_2 in Hdot
    by (apply (bool_decide_unpack _); vm_compute; reflexivity).
  rewrite (bool_decide_eq_false_2 _ Hnul).
  assert (Habs : isabs stem = false).
  { unfold isabs. apply not_true_is_false. rewrite startswith_prefix.
    intros [r ->]. apply Hslash. left. }
  rewrite Habs. unfold parts_of in *. rewrite (split_no_sep _ _ Hslash).
  change (isabs (pystr ".")) with false in Hdot.
  change (split SLASH (pystr ".")) with [[DOT]] in Hdot.
  cbv beta iota in Hdot. rewrite joinrealpath_app in *.
  destruct (joinrealpath (fs_links fs) (size (fs_links fs)) [] (fs_cwd fs))
    as [c'|e]; [|done]. simpl in *.
  rewrite joinrealpath_skip, joinrealpath_nil in Hdot by (by right).
  inversion Hdot; subst c'.
  destruct (decide (stem = [] ∨ stem = [DOT])) as [Hs|Hs].
  - rewrite joinrealpath_skip, joinrealpath_nil by done. by exists c.
  - rewrite joinrealpath_plain, joinrealpath_nil by tauto.
    exists (c ++ [stem]). split; [done | by apply prefix_app_r].
Qed.

(** C10, counterexample: in a working directory that holds a symbolic
    link [report] to [/etc], the stem [report] is left as it is by the
    sanitizer, resolves to [/etc] and is denied. *)
Lemma sanitized_stem_denied :
  sanitize_output (pystr "report") = pystr "report"
  ∧ validate_output_path (posix linked_fs) SECURITY_CONFIGURATION
      (sanitize_output (pystr "report"))
    = Returned (false,
                Some (not_allowed_msg
                        (elements (ALLOWED_OUTPUT_DIRS SECURITY_CONFIGURATION)))).
Proof. split; vm_compute; reflexivity. Qed.

(** C10, amended: for a raw name without a NUL character, on a file
    system where the allowed directories resolve and where the sanitized
    stem does not name a symbolic link in the resolved working directory,
    the check of the sanitized stem answers allowed, with no message. *)
Theorem sanitized_stem_confined (fs : filesystem) (raw : str) :
  NUL ∉ raw →
  (∀ d, d ∈ ALLOWED_OUTPUT_DIRS SECURITY_CONFIGURATION →
        ∃ r, posix_resolve fs (posix_expanduser fs d) = Returned r) →
  (∀ c, posix_resolve fs (pystr ".") = Returned c →
        fs_links fs !! (c ++ [sanitize_output raw]) = None) →
  validate_output_path (posix fs) SECURITY_CONFIGURATION (sanitize_output raw)
  = Returned (true, None).
Proof.
  intros Hnul Hres Hlink.
  assert (Hdotin : pystr "." ∈ ALLOWED_OUTPUT_DIRS SECURITY_CONFIGURATION)
    by (apply (bool_decide_unpack _); vm_compute; reflexivity).
  destruct (Hres _ Hdotin) as [c Hc].
  change (posix_expanduser fs (pystr ".")) with (pystr ".") in Hc.
  pose proof (sanitize_output_no_dotdot raw) as Hdd.
  destruct (posix_resolve_stem fs (sanitize_output raw) c) as (p & Hp & Hpre).
  - by apply sanitize_output_no_nul.
  - intros Hin. apply sanitize_output_chars in Hin. apply Hin.
    apply (bool_decide_unpack _). vm_compute. reflexivity.
  - intros Heq. apply Hdd. exists [], []. by rewrite Heq.
  - exact Hc.
  - apply Hlink, Hc.
  - apply (validate_output_path_confined (posix fs) SECURITY_CONFIGURATION
             (sanitize_output raw) p Hp Hres).
    right. exists (pystr "."), c.
    split; [exact Hdotin | split; [exact Hc | exact Hpre]].
Qed.

Lemma sanitized_stem_confined_witness :
  validate_output_path (posix plain_fs) SECURITY_CONFIGURATION
    (sanitize_output (pystr "../../etc/passwd")) = Returned (true, None).
Proof.
  apply (sanitized_stem_confined plain_fs (pystr "../../etc/passwd")).
  - apply (bool_decide_unpack _). vm_compute. reflexivity.
  - exact plain_fs_dirs_resolve.
  - intros c Hc. vm_compute in Hc. inversion Hc. reflexivity.
Defined.


(** * Further properties *)

(** ** Validator: what is and what is not reported *)

Lemma elem_of_flat_map {A B} (f : A → list B) (l : list A) (y : B) :
  y ∈ flat_map f l ↔ ∃ x, x ∈ l ∧ y ∈ f x.
Proof.
  rewrite list_elem_of_In, in_flat_map. split; intros (x & Hx & Hy); exists x;
    by rewrite ?list_elem_of_In in *.
Qed.

Lemma flat_map_nil_iff {A B} (f : A → list B) (l : list A) :
  flat_map f l = [] ↔ ∀ x, x ∈ l → f x = [].
Proof.
  induction l as [|a l IH]; simpl.
  - split; [by intros _ x ?%elem_of_nil | done].
  - split.
    + intros [Ha Hl]%app_eq_nil x [->|Hx]%elem_of_cons; [done|]. by apply IH.
    + intros H. rewrite (H a) by left. simpl. apply IH.
      intros x Hx. apply H. by right.
Qed.

Lemma visit_findings (P : PolicyTables) (n : node) :
  visit P n [] = flat_map (findings P) (subnodes n).
Proof. by rewrite visit_collects. Qed.

Lemma finding_reported (parse : str → parse_result) (P : PolicyTables)
    (code : str) (tree n : node) (v : str) :
  parse code = Parsed tree → n ∈ subnodes tree → v ∈ findings P n →
  ∃ errors,
    validate_code parse P code = Returned (false, errors) ∧ v ∈ errors.
Proof.
  intros Ht Hn Hv.
  assert (Hin : v ∈ flat_map (findings P) (subnodes tree)).
  { apply elem_of_flat_map. by exists n. }
  exists (flat_map (findings P) (subnodes tree)). split; [|exact Hin].
  rewrite (validate_code_parsed _ _ _ _ Ht).
  rewrite bool_decide_eq_false_2; [reflexivity|].
  intros H. rewrite H in Hin. by apply elem_of_nil in Hin.
Qed.

(** X1: a call anywhere in the tree whose target is a bare name, or the
    attribute name of an attribute access, that is in BLOCKED_BUILTINS
    makes the code invalid and is reported by name. *)
Theorem blocked_call_detected (parse : str → parse_result) (P : PolicyTables)
    (code : str) (tree func : node) (args keywords : list node) (id : str) :
  parse code = Parsed tree →
  Call func args keywords ∈ subnodes tree →
  func = Name id ∨ (∃ value, func = Attribute value id) →
  id ∈ BLOCKED_BUILTINS P →
  ∃ errors,
    validate_code parse P code = Returned (false, errors)
    ∧ pystr "Blocked builtin call: '" ++ id ++ pystr "()'" ∈ errors.
Proof.
  intros Ht Hn Hf Hid.
  apply (finding_reported parse P code tree (Call func args keywords)); try done.
  destruct Hf as [->|[value ->]]; cbn [findings check_call];
    rewrite (bool_decide_eq_true_2 _ Hid); by left.
Qed.

Lemma blocked_call_detected_witness :
  ∃ errors,
    validate_code sample_parse_calls SECURITY_CONFIGURATION (pystr "eval(x)")
    = Returned (false, errors)
    ∧ pystr "Blocked builtin call: '" ++ pystr "eval" ++ pystr "()'" ∈ errors.
Proof.
  apply (blocked_call_detected sample_parse_calls SECURITY_CONFIGURATION
           (pystr "eval(x)")
           (Other [Other [Call (Name (pystr "eval")) [Name (pystr "x")] []]])
           (Name (pystr "eval")) [Name (pystr "x")] [] (pystr "eval")).
  - reflexivity.
  - cbn [subnodes flat_map app]. right. right. left.
  - by left.
  - apply (bool_decide_unpack _). vm_compute. reflexivity.
Defined.

Lemma blocked_builtin_msg_inj (id id' : str) :
  blocked_builtin_msg id = blocked_builtin_msg id' → id = id'.
Proof.
  unfold blocked_builtin_msg. intros H.
  apply app_inv_head in H. by apply app_inv_tail in H.
Qed.

Lemma calls_of_findings (P : PolicyTables) (id : str) (tree n : node) :
  n ∈ calls_of id tree →
  n ∈ subnodes tree
  ∧ findings P n
    = if bool_decide (id ∈ BLOCKED_BUILTINS P) then [blocked_builtin_msg id]
      else [].
Proof.
  unfold calls_of. rewrite list_elem_of_In, filter_In, <- list_elem_of_In.
  intros [Hn Hc]. split; [exact Hn|].
  destruct n as [| |func args keywords| | |]; try discriminate Hc.
  destruct func as [| | |value f|f|]; try discriminate Hc;
    apply bool_decide_eq_true_1 in Hc as ->; reflexivity.
Qed.

Lemma builtin_finding_call (P : PolicyTables) (id : str) (tree n : node) :
  n ∈ subnodes tree → blocked_builtin_msg id ∈ findings P n →
  id ∈ BLOCKED_BUILTINS P ∧ n ∈ calls_of id tree.
Proof.
  intros Hn Hv. unfold calls_of.
  rewrite list_elem_of_In, filter_In, <- list_elem_of_In.
  destruct n as [names|module names level|func args keywords|value attr|f|children];
    cbn [findings] in Hv; try by apply elem_of_nil in Hv.
  - apply check_aliases_kind in Hv as [m Hm].
    symmetry in Hm. by apply import_not_builtin in Hm.
  - destruct module as [[|c m]|]; cbn [check_module] in Hv;
      try by apply elem_of_nil in Hv.
    destruct (negb _); [|by apply elem_of_nil in Hv].
    apply list_elem_of_singleton in Hv. symmetry in Hv.
    by apply import_not_builtin in Hv.
  - destruct func as [| | |value f|f|]; cbn [check_call] in Hv;
      try (by apply elem_of_nil in Hv);
      (case_bool_decide as Hb; [|by apply elem_of_nil in Hv]);
      apply list_elem_of_singleton, blocked_builtin_msg_inj in Hv as ->;
      (split; [exact Hb|]); (split; [exact Hn|]);
      by apply bool_decide_eq_true_2.
  - unfold check_attribute in Hv. case_bool_decide; [|by apply elem_of_nil in Hv].
    apply list_elem_of_singleton in Hv. by apply builtin_not_attribute in Hv.
Qed.

(** X2: what is reported when the code parses.  Every error is a
    violation of an import, call or attribute node of the tree; and the
    builtin-call message for a name is among the errors exactly when the
    name is in BLOCKED_BUILTINS and some call node of the tree has it as
    its target, bare or as the attribute of an attribute access.  So a
    blocked builtin that is only named -- bound to another name, passed
    as an argument of some other call -- and not called on the spot
    raises no builtin-call message. *)
Theorem bare_names_not_flagged (parse : str → parse_result) (P : PolicyTables)
    (code : str) (tree : node) :
  parse code = Parsed tree →
  ∃ errors,
    validate_code parse P code = Returned (bool_decide (errors = []), errors)
    ∧ (∀ v, v ∈ errors →
         ∃ n, n ∈ subnodes tree ∧ v ∈ violations_of P n
              ∧ match n with
                | Import _ | ImportFrom _ _ _ | Call _ _ _ | Attribute _ _ => True
                | Name _ | Other _ => False
                end)
    ∧ (∀ id, pystr "Blocked builtin call: '" ++ id ++ pystr "()'" ∈ errors
             ↔ id ∈ BLOCKED_BUILTINS P ∧ calls_of id tree ≠ []).
Proof.
  intros Ht. exists (flat_map (findings P) (subnodes tree)).
  split; [by apply validate_code_parsed|]. split.
  - intros v (n & Hn & Hv)%elem_of_flat_map. exists n.
    rewrite <- findings_violations. split; [exact Hn|]. split; [exact Hv|].
    destruct n; try exact I; by apply elem_of_nil in Hv.
  - intros id. change (pystr "Blocked builtin call: '" ++ id ++ pystr "()'")
      with (blocked_builtin_msg id).
    rewrite elem_of_flat_map. split.
    + intros (n & Hn & Hv).
      destruct (builtin_finding_call P id tree n Hn Hv) as [Hb Hc].
      split; [exact Hb|]. intros H. rewrite H in Hc. by apply elem_of_nil in Hc.
    + intros [Hb Hc]. destruct (calls_of id tree) as [|n ns] eqn:Hcs; [done|].
      destruct (calls_of_findings P id tree n) as [Hn Hf].
      { rewrite Hcs. left. }
      exists n. split; [exact Hn|]. rewrite Hf, (bool_decide_eq_true_2 _ Hb). left.
Qed.

Lemma bare_names_not_flagged_witness :
  ∃ errors,
    validate_code sample_parse_args SECURITY_CONFIGURATION
      (pystr "map(eval, xs)")
    = Returned (bool_decide (errors = []), errors)
    ∧ pystr "eval" ∈ BLOCKED_BUILTINS SECURITY_CONFIGURATION
    ∧ pystr "Blocked builtin call: '" ++ pystr "eval" ++ pystr "()'" ∉ errors.
Proof.
  destruct (bare_names_not_flagged sample_parse_args SECURITY_CONFIGURATION
              (pystr "map(eval, xs)")
              (Other [Other [Call (Name (pystr "map"))
                               [Name (pystr "eval"); Name (pystr "xs")] []]]))
    as (errors & Hv & _ & Hiff); [reflexivity|].
  exists errors. split; [exact Hv|]. split.
  - apply (bool_decide_unpack _). vm_compute. reflexivity.
  - intros Hin. apply Hiff in Hin as [_ Hc]. apply Hc. vm_compute. reflexivity.
Defined.

(** X3: an attribute access anywhere in the tree whose attribute name is
    in BLOCKED_ATTRIBUTES makes the code invalid and is reported by name,
    whether the attribute is read, assigned or called. *)
Theorem blocked_attribute_detected (parse : str → parse_result)
    (P : PolicyTables) (code : str) (tree value : node) (attr : str) :
  parse code = Parsed tree →
  Attribute value attr ∈ subnodes tree →
  attr ∈ BLOCKED_ATTRIBUTES P →
  ∃ errors,
    validate_code parse P code = Returned (false, errors)
    ∧ pystr "Blocked attribute access: '" ++ attr ++ pystr "'" ∈ errors.
Proof.
  intros Ht Hn Ha.
  apply (finding_reported parse P code tree (Attribute value attr)); try done.
  cbn [findings]. unfold check_attribute.
  rewrite (bool_decide_eq_true_2 _ Ha). by left.
Qed.

Lemma blocked_attribute_detected_witness :
  ∃ errors,
    validate_code sample_parse_calls SECURITY_CONFIGURATION
      (pystr "x.__class__") = Returned (false, errors)
    ∧ pystr "Blocked attribute access: '" ++ pystr "__class__" ++ pystr "'"
      ∈ errors.
Proof.
  apply (blocked_attribute_detected sample_parse_calls SECURITY_CONFIGURATION
           (pystr "x.__class__")
           (Other [Other [Attribute (Name (pystr "x")) (pystr "__class__")]])
           (Name (pystr "x")) (pystr "__class__")).
  - reflexivity.
  - cbn [subnodes flat_map app]. right. right. left.
  - apply (bool_decide_unpack _). vm_compute. reflexivity.
Defined.

(** X4: a method call whose attribute name is in both BLOCKED_BUILTINS
    and BLOCKED_ATTRIBUTES is reported twice, first as a builtin call by
    [visit_Call] and then as an attribute access by [visit_Attribute]. *)
Theorem method_call_reported_twice (P : PolicyTables) (value : node)
    (attr : str) (args keywords : list node) (errors : list str) :
  attr ∈ BLOCKED_BUILTINS P →
  attr ∈ BLOCKED_ATTRIBUTES P →
  ∃ rest,
    visit P (Call (Attribute value attr) args keywords) errors
    = errors ++ blocked_builtin_msg attr :: blocked_attribute_msg attr :: rest.
Proof.
  intros Hb Ha. rewrite visit_collects. simpl.
  unfold check_attribute.
  rewrite (bool_decide_eq_true_2 _ Hb), (bool_decide_eq_true_2 _ Ha). simpl.
  by eexists.
Qed.

Lemma method_call_reported_twice_witness :
  ∃ rest,
    visit SECURITY_CONFIGURATION
      (Call (Attribute (Name (pystr "x")) (pystr "__import__"))
            [Name (pystr "y")] []) []
    = [] ++ blocked_builtin_msg (pystr "__import__")
         :: blocked_attribute_msg (pystr "__import__") :: rest.
Proof.
  apply (method_call_reported_twice SECURITY_CONFIGURATION);
    apply (bool_decide_unpack _); vm_compute; reflexivity.
Defined.

(** ** Validator: composition and policies *)

Lemma visit_Other_nil (P : PolicyTables) (children : list node) :
  visit P (Other children) [] = flat_map (λ c, visit P c []) children.
Proof.
  rewrite visit_findings. simpl.
  induction children as [|c cs IH]; simpl; [done|].
  by rewrite flat_map_app, IH, visit_findings.
Qed.

(** X5: the errors of a block of statements are the errors of its
    statements one after the other, appended to the errors found before;
    so a block is free of violations exactly when each statement is, and
    the block built from two blocks has the errors of both, in order. *)
Theorem validation_compositional (P : PolicyTables)
    (children1 children2 : list node) (errors : list str) :
  visit P (Other (children1 ++ children2)) errors
  = errors ++ visit P (Other children1) [] ++ visit P (Other children2) []
  ∧ visit P (Other children1) [] = flat_map (λ c, visit P c []) children1
  ∧ (visit P (Other children1) [] = []
     ↔ ∀ c, c ∈ children1 → visit P c [] = []).
Proof.
  split; [|split].
  - rewrite visit_collects. f_equal.
    rewrite <- (visit_findings P (Other (children1 ++ children2))).
    by rewrite !visit_Other_nil, flat_map_app.
  - apply visit_Other_nil.
  - rewrite visit_Other_nil. apply flat_map_nil_iff.
Qed.

Lemma check_aliases_nil (P : PolicyTables) (names : list alias) :
  check_aliases P names [] = []
  ↔ ∀ a, a ∈ names → _is_allowed_import P (alias_name a) = true.
Proof.
  rewrite check_aliases_filter. simpl.
  induction names as [|a names IH].
  - split; [by intros _ a ?%elem_of_nil | done].
  - rewrite filter_cons.
    destruct (decide (_is_allowed_import P (alias_name a) = false)) as [Ha|Ha].
    + split; [done|]. intros H. rewrite (H a) in Ha by left. done.
    + apply not_false_is_true in Ha. rewrite IH. split.
      * intros H a' [->|Ha']%elem_of_cons; [done | by apply H].
      * intros H a' Ha'. apply H. by right.
Qed.

Lemma allowed_import_mono (P P' : PolicyTables) (module_name : str) :
  stricter P P' →
  _is_allowed_import P' module_name = true →
  _is_allowed_import P module_name = true.
Proof.
  intros (Hbi & _ & _ & Hai). rewrite !is_allowed_import_iff.
  intros [Hb Ha]. split; [intros Hin; by apply Hb, Hbi|].
  destruct Ha as [Ha|(a & rest & Ha & ->)]; [left; by apply Hai|].
  right. exists a, rest. split; [by apply Hai | done].
Qed.

Lemma findings_mono (P P' : PolicyTables) (n : node) :
  stricter P P' → findings P' n = [] → findings P n = [].
Proof.
  intros Hs. pose proof Hs as (Hbi & Hbb & Hba & Hai).
  destruct n as [names|module names level|func args keywords|value attr|id|children];
    simpl; try done.
  - rewrite !check_aliases_nil. intros H a Ha.
    eapply allowed_import_mono; [done | by apply H].
  - destruct module as [[|c m]|]; simpl; try done.
    destruct (_is_allowed_import P' (c :: m)) eqn:H'; simpl; [|done].
    intros _. by rewrite (allowed_import_mono P P' _ Hs H').
  - destruct func; simpl; try done;
      (case_bool_decide as H'; [done|]); intros _;
      rewrite bool_decide_eq_false_2; [done | set_solver | done | set_solver].
  - unfold check_attribute. case_bool_decide as H'; [done|]. intros _.
    rewrite bool_decide_eq_false_2; [done | set_solver].
Qed.

(** X6: validation is monotone in the policy.  Code that is valid under
    a policy stays valid under every policy that blocks no more imports,
    builtins and attributes and allows at least the same imports; a
    stricter policy can only add violations. *)
Theorem stricter_policy_rejects_more (parse : str → parse_result)
    (P P' : PolicyTables) (code : str) :
  stricter P P' →
  validate_code parse P' code = Returned (true, []) →
  validate_code parse P code = Returned (true, []).
Proof.
  intros Hs. destruct (parse code) as [tree|e|e] eqn:Ht.
  - rewrite !(validate_code_parsed _ _ _ _ Ht). intros [= _ H'].
    assert (H : flat_map (findings P) (subnodes tree) = []).
    { apply flat_map_nil_iff. intros n Hn.
      eapply findings_mono; [exact Hs|].
      by apply (proj1 (flat_map_nil_iff _ _) H'). }
    by rewrite H.
  - unfold validate_code. rewrite (validate_syntax_error _ _ _ _ Ht). done.
  - unfold validate_code, validate. rewrite Ht. done.
Qed.

Lemma stricter_policy_rejects_more_witness :
  validate_code sample_parse SECURITY_CONFIGURATION (pystr "import numpy")
  = Returned (true, []).
Proof.
  apply (stricter_policy_rejects_more sample_parse SECURITY_CONFIGURATION
           stricter_configuration (pystr "import numpy")).
  - unfold stricter, stricter_configuration.
    cbn [ALLOWED_IMPORTS BLOCKED_IMPORTS BLOCKED_BUILTINS BLOCKED_ATTRIBUTES].
    split; [reflexivity|]. split; [apply union_subseteq_r|].
    split; reflexivity.
  - vm_compute. reflexivity.
Defined.

(** ** Sanitizers: the inputs they leave alone *)

Lemma filter_all {A} (Q : A → Prop) `{∀ x, Decision (Q x)} (l : list A) :
  (∀ x, x ∈ l → Q x) → filter Q l = l.
Proof.
  induction l as [|a l IH]; intros Hall; [done|].
  rewrite filter_cons, decide_True by (apply Hall; left).
  f_equal. apply IH. intros x Hx. apply Hall. by right.
Qed.

(** X7: a display name is returned unchanged exactly when it has at most
    200 characters, all of them in the allow-set; and sanitizing twice
    gives what sanitizing once gives. *)
Theorem sanitize_name_fixed_points (name : str) :
  (sanitize_name name = name
   ↔ (∀ c, c ∈ name → name_char c = true) ∧ (length name ≤ 200)%nat)
  ∧ sanitize_name (sanitize_name name) = sanitize_name name.
Proof.
  assert (Hfix : ∀ s : str,
            (∀ c, c ∈ s → name_char c = true) → (length s ≤ 200)%nat →
            sanitize_name s = s).
  { intros s Hall Hlen. rewrite sanitize_name_filter, filter_all by done.
    by apply take_ge. }
  assert (Hout : ∀ c, c ∈ sanitize_name name → name_char c = true).
  { intros c. rewrite sanitize_name_filter. intros Hc.
    eapply elem_of_sublist in Hc; [|apply sublist_take].
    by apply list_elem_of_filter in Hc as [Hc _]. }
  split; [split|].
  - intros Heq. split.
    + intros c Hc. apply Hout. by rewrite Heq.
    + rewrite <- Heq, sanitize_name_filter, length_take. lia.
  - intros [Hall Hlen]. by apply Hfix.
  - apply Hfix; [done|]. rewrite sanitize_name_filter, length_take. lia.
Qed.

(** X8: an output name is returned unchanged exactly when it has at most
    100 characters, none of the nine removed characters and no two
    adjacent dots; in every case the result is the input with characters
    taken out, none added or reordered. *)
Theorem sanitize_output_fixed_points (output : str) :
  (sanitize_output output = output
   ↔ (∀ c, c ∈ output → c ∉ PATH_CHARS)
     ∧ ¬ occurs DOTDOT output
     ∧ (length output ≤ 100)%nat)
  ∧ sanitize_output output `sublist_of` output.
Proof.
  split; [split|].
  - intros Heq. split; [|split].
    + intros c Hc. apply (sanitize_output_chars output). by rewrite Heq.
    + rewrite <- Heq. apply sanitize_output_no_dotdot.
    + rewrite <- Heq. unfold sanitize_output, slice_to. rewrite length_take. lia.
  - intros (Hch & Hdd & Hlen). unfold sanitize_output.
    rewrite re_sub_class_id.
    + rewrite replace_id by done. unfold slice_to. by apply take_ge.
    + intros c Hc. unfold path_char, one_of. apply bool_decide_eq_false.
      by apply Hch.
  - etrans; [apply sanitize_output_sublist | apply sublist_filter].
Qed.

(** ** The import tables of the script *)

Lemma before_first_app (sep : N) (a rest : str) :
  before_first sep (a ++ sep :: rest) = before_first sep a.
Proof.
  induction a as [|c a IH]; simpl.
  - by rewrite N.eqb_refl.
  - destruct (c =? sep); [done | by f_equal].
Qed.

Lemma before_first_id (sep : N) (s : str) : sep ∉ s → before_first sep s = s.
Proof.
  induction s as [|c s IH]; [done|]. intros [Hc Hs]%not_elem_of_cons. simpl.
  destruct (N.eqb_spec c sep); [congruence | by rewrite IH].
Qed.

(** X9: the tables of the script are consistent.  Every entry of
    ALLOWED_IMPORTS, and every dotted name below an entry, is accepted: no
    allow-listed namespace is shadowed by the deny-list.  Every entry of
    BLOCKED_IMPORTS, and every dotted name below it, is rejected. *)
Theorem import_tables_consistent :
  (∀ m, m ∈ ALLOWED_IMPORTS SECURITY_CONFIGURATION →
        _is_allowed_import SECURITY_CONFIGURATION m = true
        ∧ ∀ rest, _is_allowed_import SECURITY_CONFIGURATION (m ++ DOT :: rest)
                  = true)
  ∧ (∀ b, b ∈ BLOCKED_IMPORTS SECURITY_CONFIGURATION →
          _is_allowed_import SECURITY_CONFIGURATION b = false
          ∧ ∀ rest, _is_allowed_import SECURITY_CONFIGURATION (b ++ DOT :: rest)
                    = false).
Proof.
  split.
  - intros m Hm.
    assert (Hbase : before_first DOT m ∉ BLOCKED_IMPORTS SECURITY_CONFIGURATION).
    { assert (Hall : forallb
                       (λ m, negb (bool_decide
                          (before_first DOT m
                           ∈ BLOCKED_IMPORTS SECURITY_CONFIGURATION)))
                       (elements (ALLOWED_IMPORTS SECURITY_CONFIGURATION)) = true)
        by (vm_compute; reflexivity).
      rewrite forallb_forall in Hall.
      apply elem_of_elements, list_elem_of_In, Hall in Hm.
      apply negb_true_iff in Hm. by apply bool_decide_eq_false in Hm. }
    split; [|intros rest]; apply is_allowed_import_iff.
    + split; [exact Hbase | left; exact Hm].
    + split; [by rewrite before_first_app|]. right. exists m, rest.
      split; [exact Hm | reflexivity].
  - intros b Hb.
    assert (Hdot : DOT ∉ b).
    { assert (Hall : forallb (λ b, negb (bool_decide (DOT ∈ b)))
                       (elements (BLOCKED_IMPORTS SECURITY_CONFIGURATION)) = true)
        by (vm_compute; reflexivity).
      rewrite forallb_forall in Hall. pose proof Hb as Hb'.
      apply elem_of_elements, list_elem_of_In, Hall in Hb'.
      apply negb_true_iff in Hb'. by apply bool_decide_eq_false in Hb'. }
    split; [|intros rest]; apply not_true_is_false; intros H;
      apply is_allowed_import_iff in H as [H _]; apply H.
    + by rewrite before_first_id.
    + by rewrite before_first_app, before_first_id.
Qed.

Lemma import_tables_consistent_witness :
  _is_allowed_import SECURITY_CONFIGURATION
    (pystr "diagrams.azure.compute" ++ DOT :: pystr "vm") = true
  ∧ _is_allowed_import SECURITY_CONFIGURATION
      (pystr "os" ++ DOT :: pystr "path") = false.
Proof.
  destruct import_tables_consistent as [Ha Hb]. split.
  - apply (Ha (pystr "diagrams.azure.compute")).
    apply elem_of_list_to_set. apply (bool_decide_unpack _).
    vm_compute. exact I.
  - apply (Hb (pystr "os")).
    apply (bool_decide_unpack _). vm_compute. reflexivity.
Defined.

(** ** Executor: the child process and the temporary directory *)

Lemma spawn_count_app (t1 t2 : list event) (fs : gmap str str) :
  spawn_count {| tmpfiles := fs; trace := t1 ++ t2 |}
  = (length (List.filter is_spawn t1) + length (List.filter is_spawn t2))%nat.
Proof. unfold spawn_count. simpl. by rewrite List.filter_app, length_app. Qed.

(** Counts the spawns of a trace that extends [tr]. *)
Ltac count_spawns :=
  unfold spawn_count; cbn [trace];
  rewrite ?List.filter_app, ?length_app; cbn [List.filter is_spawn length];
  try lia.

(** X10: for valid code whose temporary file was written and whose child
    can be started, exactly one process is spawned: the interpreter on the
    temporary file, in the working directory, with the given timeout and
    with an environment of exactly six variables, each taken from the
    parent environment or empty.  No other variable of the parent reaches
    the child. *)
Theorem execute_spawns_once (parse : str → parse_result) (P : PolicyTables)
    (h : Host) (code : str) (timeout : Z) (w : world) :
  validate_code parse P code = Returned (true, []) →
  temp_failure h = None →
  (∀ e, child h [executable h; temp_name h] timeout ≠ SpawnFails e) →
  let run := execute_diagram_code parse P h code timeout w in
  (∃ after,
      trace (snd run)
      = trace w ++ Spawned [executable h; temp_name h] (minimal_env h)
                     (host_cwd h) timeout :: after
      ∧ List.filter is_spawn after = [])
  ∧ spawn_count (snd run) = S (spawn_count w)
  ∧ fst <$> minimal_env h
    = pystr <$> ["PATH"; "PYTHONPATH"; "HOME"; "TEMP"; "TMP"; "USERPROFILE"]%string
  ∧ ∀ k v, (k, v) ∈ minimal_env h → v = default [] (environ h !! k).
Proof.
  intros Hv Htf Hc. cbv zeta. rewrite (execute_valid _ _ _ _ _ Hv).
  destruct w as [files tr]. run_valid Htf.
  split; [|split; [|split; [reflexivity|]]].
  - destruct (child h [executable h; temp_name h] timeout)
      as [rc out err| |e|rc e]; [| |by destruct (Hc e)|]; run_step;
      try destruct (rc =? 0)%Z; try destruct e; split_files h;
      rewrite <- ?app_assoc; cbn [app]; eexists; (split; [reflexivity|]);
      reflexivity.
  - destruct (child h [executable h; temp_name h] timeout)
      as [rc out err| |e|rc e]; [| |by destruct (Hc e)|]; run_step;
      try destruct (rc =? 0)%Z; try destruct e; split_files h;
      count_spawns.
  - intros k v Hkv. unfold minimal_env in Hkv.
    apply list_elem_of_fmap in Hkv as (key & Heq & _). by inversion Heq.
Qed.

Lemma execute_spawns_once_witness :
  spawn_count (snd (execute_diagram_code sample_parse SECURITY_CONFIGURATION
                      (sample_host Hangs None) (pystr "import numpy") 60
                      empty_world)) = 1%nat.
Proof.
  destruct (execute_spawns_once sample_parse SECURITY_CONFIGURATION
              (sample_host Hangs None) (pystr "import numpy") 60 empty_world)
    as (_ & H & _).
  - vm_compute. reflexivity.
  - reflexivity.
  - intros e. discriminate.
  - exact H.
Defined.

(** X11: what the executor does to the other files of the temporary
    directory is nothing: when a run spawned no process, every name other
    than that of its own file holds afterwards what it held before; when
    it spawned one, every such name holds what the child left there.  So
    with a child that leaves the other files alone they are all as they
    were, for valid and invalid code and whatever the removal does. *)
Theorem execute_frame (parse : str → parse_result) (P : PolicyTables)
    (h : Host) (code : str) (timeout : Z) (w : world) (name : str) :
  name ≠ temp_name h →
  let run := execute_diagram_code parse P h code timeout w in
  (spawn_count (snd run) = spawn_count w →
   tmpfiles (snd run) !! name = tmpfiles w !! name)
  ∧ (spawn_count (snd run) ≠ spawn_count w →
     tmpfiles (snd run) !! name
     = child_files h (<[temp_name h := code]> (tmpfiles w)) !! name)
  ∧ ((∀ files n, n ≠ temp_name h → child_files h files !! n = files !! n) →
     tmpfiles (snd run) !! name = tmpfiles w !! name).
Proof.
  intros Hne. cbv zeta.
  destruct (validate_code_cases parse P code) as [Hv|[(errors & _ & Hv)|[e Hv]]].
  - rewrite (execute_valid _ _ _ _ _ Hv). destruct w as [files tr].
    unfold write_temp_file.
    destruct (temp_failure h) as [[e|e written]|]; run_step.
    + split; [done|]. split; [done|done].
    + rewrite lookup_insert_ne by done. split; [done|]. split; [done|done].
    + destruct (child h [executable h; temp_name h] timeout)
        as [rc out err| |e|rc e]; run_step;
        try destruct (rc =? 0)%Z; try destruct e; split_files h;
        rewrite ?lookup_delete_ne by done;
        (split; [count_spawns; rewrite ?lookup_insert_ne by done; done|]);
        (split; [count_spawns; done|]);
        intros Hc; rewrite ?Hc by done; by rewrite lookup_insert_ne.
  - rewrite (execute_invalid _ _ _ _ _ _ _ Hv). by cbn [snd].
  - rewrite (execute_raises _ _ _ _ _ _ _ Hv). by cbn [snd].
Qed.

Lemma execute_frame_witness :
  tmpfiles (snd (execute_diagram_code sample_parse SECURITY_CONFIGURATION
                   (sample_host_with None (delete (pystr "/tmp/other.py"))
                      Hangs None)
                   (pystr "import numpy") 60
                   {| tmpfiles := {[ pystr "/tmp/other.py" := pystr "x" ]};
                      trace := [] |}))
    !! pystr "/tmp/other.py"
  = None
  ∧ tmpfiles (snd (execute_diagram_code sample_parse SECURITY_CONFIGURATION
                     (sample_host Hangs None) (pystr "import numpy") 60
                     {| tmpfiles := {[ pystr "/tmp/other.py" := pystr "x" ]};
                        trace := [] |}))
      !! pystr "/tmp/other.py"
    = Some (pystr "x").
Proof.
  split.
  - destruct (execute_frame sample_parse SECURITY_CONFIGURATION
                (sample_host_with None (delete (pystr "/tmp/other.py"))
                   Hangs None)
                (pystr "import numpy") 60
                {| tmpfiles := {[ pystr "/tmp/other.py" := pystr "x" ]};
                   trace := [] |}
                (pystr "/tmp/other.py")) as (_ & H & _); [discriminate|].
    rewrite H; [vm_compute; reflexivity | vm_compute; discriminate].
  - destruct (execute_frame sample_parse SECURITY_CONFIGURATION
                (sample_host Hangs None) (pystr "import numpy") 60
                {| tmpfiles := {[ pystr "/tmp/other.py" := pystr "x" ]};
                   trace := [] |}
                (pystr "/tmp/other.py")) as (_ & _ & H); [discriminate|].
    rewrite H; [reflexivity | reflexivity].
Defined.

(** X12: for valid code whose temporary file was written, when starting
    the child raises an exception other than the timeout, the result is
    failure with the text of that exception after [Execution failed: ];
    no process was spawned, and the temporary file is removed when the
    removal works. *)
Theorem execute_spawn_failure (parse : str → parse_result) (P : PolicyTables)
    (h : Host) (code : str) (timeout : Z) (w : world) (e : exn) :
  validate_code parse P code = Returned (true, []) →
  temp_failure h = None →
  child h [executable h; temp_name h] timeout = SpawnFails e →
  (∀ text, e ≠ TimeoutExpired text) →
  let run := execute_diagram_code parse P h code timeout w in
  fst run = Returned (false, pystr "Execution failed: " ++ exn_str e)
  ∧ spawn_count (snd run) = spawn_count w
  ∧ (unlink_error h = None → tmpfiles (snd run) !! temp_name h = None).
Proof.
  intros Hv Htf Hc He. cbv zeta. rewrite (execute_valid _ _ _ _ _ Hv).
  destruct w as [files tr]. run_valid Htf. rewrite Hc. run_step.
  destruct e as [t|t|t|t]; try (by destruct (He t));
    run_step; rewrite lookup_insert_eq;
    destruct (unlink_error h); run_step;
    (split; [reflexivity|]); (split; [count_spawns; done|]);
    intros ?; try done; apply lookup_delete_eq.
Qed.

Lemma execute_spawn_failure_witness :
  fst (execute_diagram_code sample_parse SECURITY_CONFIGURATION
         (sample_host (SpawnFails (OSError (pystr "no interpreter"))) None)
         (pystr "import numpy") 60 empty_world)
  = Returned (false, pystr "Execution failed: no interpreter").
Proof.
  destruct (execute_spawn_failure sample_parse SECURITY_CONFIGURATION
              (sample_host (SpawnFails (OSError (pystr "no interpreter"))) None)
              (pystr "import numpy") 60 empty_world
              (OSError (pystr "no interpreter"))) as (H & _).
  - vm_compute. reflexivity.
  - reflexivity.
  - reflexivity.
  - discriminate.
  - exact H.
Defined.

(** ** Output path: the order of the allowed directories *)

(** X13: the loop over the allowed directories gives the same answer in
    whatever order it meets them, provided each of them resolves; so the
    verdict does not depend on the iteration order of the set, which
    Python leaves open. *)
Theorem check_allowed_dirs_order (pf : Platform) (p : path)
    (dirs dirs' : list str) :
  dirs ≡ₚ dirs' →
  (∀ d, d ∈ dirs → ∃ r, resolve pf (expanduser pf d) = Returned r) →
  check_allowed_dirs pf p dirs = check_allowed_dirs pf p dirs'.
Proof.
  intros Hperm Hres.
  destruct (check_allowed_dirs_spec pf p dirs Hres) as (found & -> & Hf).
  destruct (check_allowed_dirs_spec pf p dirs') as (found' & -> & Hf').
  { intros d Hd. apply Hres. by rewrite Hperm. }
  f_equal. apply eq_true_iff_eq. rewrite Hf, Hf'.
  by setoid_rewrite Hperm.
Qed.

Lemma check_allowed_dirs_order_witness :
  check_allowed_dirs (posix plain_fs) [pystr "tmp"; pystr "y"]
    [pystr "/tmp"; pystr "."]
  = check_allowed_dirs (posix plain_fs) [pystr "tmp"; pystr "y"]
      [pystr "."; pystr "/tmp"].
Proof.
  apply (check_allowed_dirs_order (posix plain_fs)).
  - apply Permutation_swap.
  - intros d Hd.
    repeat (apply elem_of_cons in Hd as [->|Hd]);
      [eexists; vm_compute; reflexivity ..|by apply elem_of_nil in Hd].
Defined.

(** ** Diagram generation *)

Lemma validate_output_path_true (pf : Platform) (P : PolicyTables)
    (output_path : str) (error : option str) :
  validate_output_path pf P output_path = Returned (true, error) →
  error = None.
Proof.
  unfold validate_output_path.
  destruct (resolve pf output_path) as [p|e]; simpl; [|done].
  destruct (check_allowed_dirs pf p _) as [[|]|e]; simpl; [congruence| |done].
  destruct (relative_to p (cwd pf)) as [r|[]]; congruence.
Qed.

(** Either nothing happened to the world, or every check passed and the
    world is the one the executor left; an exception of the executor then
    leaves [generate_diagram] as it is. *)
Lemma generate_diagram_world (parse : str → parse_result) (P : PolicyTables)
    (pf : Platform) (h : Host) (format : str → str → str → result str)
    (PATTERNS : patterns) (name pattern output : str) (w : world) :
  snd (generate_diagram parse P pf h format PATTERNS name pattern output w) = w
  ∨ ∃ entry code,
      pattern_lookup PATTERNS pattern = Some entry
      ∧ validate_output_path pf P (sanitize_output output) = Returned (true, None)
      ∧ format (template entry) (sanitize_name name) (sanitize_output output)
        = Returned code
      ∧ validate_code parse P code = Returned (true, [])
      ∧ snd (generate_diagram parse P pf h format PATTERNS name pattern output w)
        = snd (execute_diagram_code parse P h code EXECUTION_TIMEOUT w)
      ∧ ∀ e, fst (execute_diagram_code parse P h code EXECUTION_TIMEOUT w)
             = Raised e →
             fst (generate_diagram parse P pf h format PATTERNS name pattern
                    output w) = Raised e.
Proof.
  unfold generate_diagram.
  destruct (pattern_lookup PATTERNS pattern) as [entry|]; [|by left].
  destruct (validate_output_path pf P (sanitize_output output))
    as [[is_valid error]|e] eqn:Hpath; [|by left].
  destruct is_valid; simpl; [|by left].
  apply validate_output_path_true in Hpath as Herr. subst error.
  destruct (format (template entry) (sanitize_name name) (sanitize_output output))
    as [code|e] eqn:Hfmt; [|by left].
  destruct (validate_code_cases parse P code) as [Hv|[(errors & _ & Hv)|[e Hv]]].
  - right. exists entry, code. repeat (split; [done|]).
    unfold bind.
    destruct (execute_diagram_code parse P h code EXECUTION_TIMEOUT w)
      as [[[success result]|e] w']; simpl.
    + split; [by destruct success | by intros e [=]].
    + split; [done | by intros e' [= ->]].
  - left. unfold bind. by rewrite (execute_invalid _ _ _ _ _ _ _ Hv).
  - left. unfold bind. by rewrite (execute_raises _ _ _ _ _ _ _ Hv).
Qed.

(** X14: [generate_diagram] changes nothing -- it writes no file and
    spawns no process -- unless the pattern is known, the sanitized output
    name passed the path check, and the code made from the template with
    the sanitized name and output passed validation. *)
Theorem generate_diagram_gated (parse : str → parse_result) (P : PolicyTables)
    (pf : Platform) (h : Host) (format : str → str → str → result str)
    (PATTERNS : patterns) (name pattern output : str) (w : world) :
  snd (generate_diagram parse P pf h format PATTERNS name pattern output w) ≠ w →
  ∃ entry code,
    pattern_lookup PATTERNS pattern = Some entry
    ∧ validate_output_path pf P (sanitize_output output) = Returned (true, None)
    ∧ format (template entry) (sanitize_name name) (sanitize_output output)
      = Returned code
    ∧ validate_code parse P code = Returned (true, []).
Proof.
  intros Hw.
  destruct (generate_diagram_world parse P pf h format PATTERNS name pattern
              output w) as [Heq|(entry & code & H1 & H2 & H3 & H4 & _)];
    [done|]. by exists entry, code.
Qed.

Lemma generate_diagram_gated_witness :
  ∃ entry code,
    pattern_lookup sample_patterns (pystr "api-led") = Some entry
    ∧ validate_output_path (posix plain_fs) SECURITY_CONFIGURATION
        (sanitize_output (pystr "out")) = Returned (true, None)
    ∧ sample_format (template entry) (sanitize_name (pystr "My diagram"))
        (sanitize_output (pystr "out")) = Returned code
    ∧ validate_code sample_parse SECURITY_CONFIGURATION code
      = Returned (true, []).
Proof.
  apply (generate_diagram_gated sample_parse SECURITY_CONFIGURATION
           (posix plain_fs) (sample_host (Exits 0 (pystr "ok") []) None)
           sample_format sample_patterns (pystr "My diagram") (pystr "api-led")
           (pystr "out") empty_world).
  intros H. apply (f_equal trace) in H. vm_compute in H. discriminate H.
Defined.

Lemma execute_success (parse : str → parse_result) (P : PolicyTables)
    (h : Host) (code : str) (timeout : Z) (w : world) (out : str) :
  fst (execute_diagram_code parse P h code timeout w) = Returned (true, out) →
  validate_code parse P code = Returned (true, [])
  ∧ ∃ err, child h [executable h; temp_name h] timeout = Exits 0 out err.
Proof.
  intros Hrun.
  destruct (validate_code_cases parse P code) as [Hv|[(errors & _ & Hv)|[e Hv]]].
  - split; [done|]. rewrite (execute_valid _ _ _ _ _ Hv) in Hrun. revert Hrun.
    destruct w as [files tr]. unfold write_temp_file.
    destruct (temp_failure h) as [[e|e written]|]; run_step; [by intros [=]..|].
    destruct (child h [executable h; temp_name h] timeout)
      as [rc out' err| |e|rc e]; run_step.
    + destruct (Z.eqb_spec rc 0) as [->|Hrc]; split_files h;
        intros [=]; subst; by eexists.
    + split_files h; intros [=].
    + destruct e; split_files h; intros [=].
    + destruct e; split_files h; intros [=].
  - rewrite (execute_invalid _ _ _ _ _ _ _ Hv) in Hrun. by inversion Hrun.
  - rewrite (execute_raises _ _ _ _ _ _ _ Hv) in Hrun. by inversion Hrun.
Qed.

(** A file under the name of the temporary file is there after a run only
    when its write failed, and the run then raised. *)
Lemma execute_removes_temp (parse : str → parse_result) (P : PolicyTables)
    (h : Host) (code : str) (timeout : Z) (w : world) (content : str) :
  unlink_error h = None →
  tmpfiles w !! temp_name h = None →
  tmpfiles (snd (execute_diagram_code parse P h code timeout w)) !! temp_name h
  = Some content →
  ∃ e, temp_failure h = Some (WriteFails e content)
       ∧ fst (execute_diagram_code parse P h code timeout w) = Raised e.
Proof.
  intros Hu Hw.
  destruct (validate_code_cases parse P code) as [Hv|[(errors & _ & Hv)|[e Hv]]].
  - rewrite (execute_valid _ _ _ _ _ Hv). destruct w as [files tr].
    cbn [tmpfiles] in Hw. unfold write_temp_file.
    destruct (temp_failure h) as [[e|e written]|]; run_step.
    + intros H. rewrite Hw in H. discriminate H.
    + rewrite lookup_insert_eq. intros [= ->]. by exists e.
    + destruct (child h [executable h; temp_name h] timeout)
        as [rc out' err| |e|rc e]; run_step;
        try destruct (rc =? 0)%Z; try destruct e; split_files h;
        rewrite ?lookup_delete_eq; intros H; congruence.
  - rewrite (execute_invalid _ _ _ _ _ _ _ Hv). cbn [snd]. congruence.
  - rewrite (execute_raises _ _ _ _ _ _ _ Hv). cbn [snd]. congruence.
Qed.

Lemma execute_spawn_le (parse : str → parse_result) (P : PolicyTables)
    (h : Host) (code : str) (timeout : Z) (w : world) :
  (spawn_count (snd (execute_diagram_code parse P h code timeout w))
   ≤ S (spawn_count w))%nat.
Proof.
  destruct (validate_code_cases parse P code) as [Hv|[(errors & _ & Hv)|[e Hv]]].
  - rewrite (execute_valid _ _ _ _ _ Hv). destruct w as [files tr].
    unfold write_temp_file.
    destruct (temp_failure h) as [[e|e written]|]; run_step;
      [count_spawns..|].
    destruct (child h [executable h; temp_name h] timeout)
      as [rc out' err| |e|rc e]; run_step;
      try destruct (rc =? 0)%Z; try destruct e; split_files h;
      count_spawns.
  - rewrite (execute_invalid _ _ _ _ _ _ _ Hv). cbn [snd]. lia.
  - rewrite (execute_raises _ _ _ _ _ _ _ Hv). cbn [snd]. lia.
Qed.

(** X15: [generate_diagram] ends normally only when every check passed
    and the child exited with status zero; it then prints exactly one
    line, naming the sanitized output with the [.svg] suffix. *)
Theorem generate_diagram_completed (parse : str → parse_result)
    (P : PolicyTables) (pf : Platform) (h : Host)
    (format : str → str → str → result str) (PATTERNS : patterns)
    (name pattern output : str) (w : world) (lines : list str) :
  fst (generate_diagram parse P pf h format PATTERNS name pattern output w)
  = Returned (lines, Completed) →
  ∃ entry code out err,
    pattern_lookup PATTERNS pattern = Some entry
    ∧ validate_output_path pf P (sanitize_output output) = Returned (true, None)
    ∧ format (template entry) (sanitize_name name) (sanitize_output output)
      = Returned code
    ∧ validate_code parse P code = Returned (true, [])
    ∧ child h [executable h; temp_name h] EXECUTION_TIMEOUT = Exits 0 out err
    ∧ lines = [pystr "Generated: " ++ sanitize_output output ++ pystr ".svg"].
Proof.
  unfold generate_diagram.
  destruct (pattern_lookup PATTERNS pattern) as [entry|]; [|by intros [=]].
  destruct (validate_output_path pf P (sanitize_output output))
    as [[is_valid error]|e] eqn:Hpath; [|by intros [=]].
  destruct is_valid; simpl; [|by intros [=]].
  apply validate_output_path_true in Hpath as Herr. subst error.
  destruct (format (template entry) (sanitize_name name) (sanitize_output output))
    as [code|e] eqn:Hfmt; [|by intros [=]].
  unfold bind.
  destruct (execute_diagram_code parse P h code EXECUTION_TIMEOUT w)
    as [[[success result]|e] w'] eqn:Hrun; simpl; [|by intros [=]].
  destruct success; simpl; intros [=]; subst lines.
  destruct (execute_success parse P h code EXECUTION_TIMEOUT w result)
    as (Hv & err & Hc); [by rewrite Hrun|].
  by exists entry, code, result, err.
Qed.

Lemma generate_diagram_completed_witness :
  ∃ entry code out err,
    pattern_lookup sample_patterns (pystr "api-led") = Some entry
    ∧ validate_output_path (posix plain_fs) SECURITY_CONFIGURATION
        (sanitize_output (pystr "a/b")) = Returned (true, None)
    ∧ sample_format (template entry) (sanitize_name (pystr "My diagram"))
        (sanitize_output (pystr "a/b")) = Returned code
    ∧ validate_code sample_parse SECURITY_CONFIGURATION code
      = Returned (true, [])
    ∧ child (sample_host (Exits 0 (pystr "ok") []) None)
        [executable (sample_host (Exits 0 (pystr "ok") []) None);
         temp_name (sample_host (Exits 0 (pystr "ok") []) None)]
        EXECUTION_TIMEOUT = Exits 0 out err
    ∧ [pystr "Generated: ab.svg"]
      = [pystr "Generated: " ++ sanitize_output (pystr "a/b") ++ pystr ".svg"].
Proof.
  apply (generate_diagram_completed sample_parse SECURITY_CONFIGURATION
           (posix plain_fs) (sample_host (Exits 0 (pystr "ok") []) None)
           sample_format sample_patterns (pystr "My diagram") (pystr "api-led")
           (pystr "a/b") empty_world).
  vm_compute. reflexivity.
Defined.

(** X16: when the removal of the temporary file works and the name the
    file gets is not in use, [generate_diagram] spawns at most one process
    and leaves a file under that name only in one case: the write of the
    temporary file failed after the file was created; the file then holds
    what was written so far and the exception of the write leaves
    [generate_diagram].  When the write does not fail that way, no file is
    left, on every way out. *)
Theorem generate_diagram_leaves_no_file (parse : str → parse_result)
    (P : PolicyTables) (pf : Platform) (h : Host)
    (format : str → str → str → result str) (PATTERNS : patterns)
    (name pattern output : str) (w : world) :
  unlink_error h = None →
  tmpfiles w !! temp_name h = None →
  let run := generate_diagram parse P pf h format PATTERNS name pattern output w in
  (spawn_count (snd run) ≤ S (spawn_count w))%nat
  ∧ (∀ content,
       tmpfiles (snd run) !! temp_name h = Some content →
       ∃ e, temp_failure h = Some (WriteFails e content) ∧ fst run = Raised e)
  ∧ ((∀ e written, temp_failure h ≠ Some (WriteFails e written)) →
     tmpfiles (snd run) !! temp_name h = None).
Proof.
  intros Hu Hw. cbv zeta.
  assert (Hleft : ∀ content,
    tmpfiles (snd (generate_diagram parse P pf h format PATTERNS name pattern
                     output w)) !! temp_name h = Some content →
    ∃ e, temp_failure h = Some (WriteFails e content)
         ∧ fst (generate_diagram parse P pf h format PATTERNS name pattern
                  output w) = Raised e).
  { intros content.
    destruct (generate_diagram_world parse P pf h format PATTERNS name pattern
                output w) as [->|(entry & code & _ & _ & _ & Hv & -> & Hraise)].
    - intros H. rewrite Hw in H. discriminate H.
    - intros H.
      destruct (execute_removes_temp parse P h code EXECUTION_TIMEOUT w content
                  Hu Hw H) as (e & Htf & Hrun).
      exists e. split; [exact Htf | by apply Hraise]. }
  split; [|split].
  - destruct (generate_diagram_world parse P pf h format PATTERNS name pattern
                output w) as [->|(entry & code & _ & _ & _ & Hv & -> & _)];
      [lia | apply execute_spawn_le].
  - exact Hleft.
  - intros Hno.
    destruct (tmpfiles (snd (generate_diagram parse P pf h format PATTERNS name
                               pattern output w)) !! temp_name h)
      as [content|] eqn:Hf; [|reflexivity].
    destruct (Hleft content eq_refl) as (e & Htf & _). by destruct (Hno e content).
Qed.

Lemma generate_diagram_leaves_no_file_witness :
  tmpfiles (snd (generate_diagram sample_parse SECURITY_CONFIGURATION
                   (posix plain_fs) (sample_host Hangs None)
                   sample_format sample_patterns (pystr "My diagram")
                   (pystr "api-led") (pystr "out") empty_world))
    !! pystr "/tmp/tmpab12cd34.py" = None.
Proof.
  destruct (generate_diagram_leaves_no_file sample_parse SECURITY_CONFIGURATION
              (posix plain_fs) (sample_host Hangs None)
              sample_format sample_patterns (pystr "My diagram")
              (pystr "api-led") (pystr "out") empty_world) as (_ & _ & H);
    [reflexivity | reflexivity |].
  apply H. intros e written. discriminate.
Defined.

(** X17: when [generate_diagram] leaves through [sys.exit] the status is
    1, and what it printed tells why: the pattern is unknown (two lines,
    the second listing the known patterns in source order), the path check
    denied the sanitized output (the denial message), or the executor
    reported failure (its diagnostic after a heading line). *)
Theorem generate_diagram_exit (parse : str → parse_result)
    (P : PolicyTables) (pf : Platform) (h : Host)
    (format : str → str → str → result str) (PATTERNS : patterns)
    (name pattern output : str) (w : world) (lines : list str) (status : Z) :
  fst (generate_diagram parse P pf h format PATTERNS name pattern output w)
  = Returned (lines, SystemExit status) →
  status = 1%Z
  ∧ ((pattern_lookup PATTERNS pattern = None
      ∧ lines = [pystr "Error: Unknown pattern '" ++ pattern ++ pystr "'";
                 pystr "Available patterns: "
                 ++ join (pystr ", ") (fst <$> PATTERNS)])
     ∨ (∃ error,
          validate_output_path pf P (sanitize_output output)
          = Returned (false, error)
          ∧ lines = [pystr "Error: " ++ default (pystr "None") error])
     ∨ (∃ entry code diagnostic,
          pattern_lookup PATTERNS pattern = Some entry
          ∧ format (template entry) (sanitize_name name) (sanitize_output output)
            = Returned code
          ∧ fst (execute_diagram_code parse P h code EXECUTION_TIMEOUT w)
            = Returned (false, diagnostic)
          ∧ lines = [pystr "Error generating diagram:" ++ [NEWLINE]
                     ++ diagnostic])).
Proof.
  unfold generate_diagram.
  destruct (pattern_lookup PATTERNS pattern) as [entry|].
  2:{ intros [=]; subst. split; [reflexivity|]. left. split; reflexivity. }
  destruct (validate_output_path pf P (sanitize_output output))
    as [[is_valid error]|e] eqn:Hpath; [|by intros [=]].
  destruct is_valid; simpl.
  2:{ intros [=]; subst. split; [reflexivity|]. right; left. exists error.
      split; reflexivity. }
  destruct (format (template entry) (sanitize_name name) (sanitize_output output))
    as [code|e] eqn:Hfmt; [|by intros [=]].
  unfold bind.
  destruct (execute_diagram_code parse P h code EXECUTION_TIMEOUT w)
    as [[[success result]|e] w'] eqn:Hrun; simpl; [|by intros [=]].
  destruct success; simpl; intros [=]; subst.
  split; [reflexivity|]. right; right. exists entry, code, result.
  repeat split; [exact Hfmt | by rewrite Hrun].
Qed.

Lemma generate_diagram_exit_witness :
  (1 = 1)%Z
  ∧ ((pattern_lookup sample_patterns (pystr "nope") = None
      ∧ unknown_pattern_lines sample_patterns (pystr "nope")
        = [pystr "Error: Unknown pattern '" ++ pystr "nope" ++ pystr "'";
           pystr "Available patterns: "
           ++ join (pystr ", ") (fst <$> sample_patterns)])
     ∨ (∃ error,
          validate_output_path (posix plain_fs) SECURITY_CONFIGURATION
            (sanitize_output (pystr "out"))
          = Returned (false, error)
          ∧ unknown_pattern_lines sample_patterns (pystr "nope")
            = [pystr "Error: " ++ default (pystr "None") error])
     ∨ (∃ entry code diagnostic,
          pattern_lookup sample_patterns (pystr "nope") = Some entry
          ∧ sample_format (template entry) (sanitize_name (pystr "My diagram"))
              (sanitize_output (pystr "out"))
            = Returned code
          ∧ fst (execute_diagram_code sample_parse SECURITY_CONFIGURATION
                   (sample_host Hangs None) code EXECUTION_TIMEOUT empty_world)
            = Returned (false, diagnostic)
          ∧ unknown_pattern_lines sample_patterns (pystr "nope")
            = [pystr "Error generating diagram:" ++ [NEWLINE] ++ diagnostic])).
Proof.
  apply (generate_diagram_exit sample_parse SECURITY_CONFIGURATION
           (posix plain_fs) (sample_host Hangs None)
           sample_format sample_patterns (pystr "My diagram") (pystr "nope")
           (pystr "out") empty_world).
  reflexivity.
Defined.

(** ** Import policy: submodules *)

(** X18: under every policy the accepted module names are closed under
    going to submodules: a name that is accepted stays accepted when a dot
    and more text are appended. *)
Theorem allowed_closed_under_submodules (P : PolicyTables)
    (module_name rest : str) :
  _is_allowed_import P module_name = true →
  _is_allowed_import P (module_name ++ DOT :: rest) = true.
Proof.
  rewrite !is_allowed_import_iff, before_first_app. intros [Hb Ha].
  split; [done|]. right.
  destruct Ha as [Ha|(a & r & Ha & ->)].
  - by exists module_name, rest.
  - exists a, (r ++ DOT :: rest). split; [done|]. by rewrite <- app_assoc.
Qed.

Lemma allowed_closed_under_submodules_witness :
  _is_allowed_import SECURITY_CONFIGURATION
    (pystr "numpy.linalg" ++ DOT :: pystr "lapack") = true.
Proof.
  apply (allowed_closed_under_submodules SECURITY_CONFIGURATION
           (pystr "numpy.linalg") (pystr "lapack")).
  vm_compute. reflexivity.
Defined.
